(** * contract_utils.py: batched pair discovery over a factory contract

    A shallow embedding of [src/contract_utils.py].  Python values are a
    small universe [pyval]; an [async def] body is a tree of effects
    ([coro]) whose nodes are the blocking web3 call, [print] and
    [asyncio.gather]; the event loop is an interleaving semantics driven by
    an explicit schedule.  The web3 library (contract binding and the remote
    call) is a parameter of the development. *)

From Stdlib Require Import List ZArith String Ascii Bool Lia Permutation.
From Stdlib Require Import Decimal DecimalString.
Import ListNotations.
Open Scope string_scope.
Open Scope Z_scope.
Open Scope list_scope.

Set Implicit Arguments.
Set Warnings "-register-all,-notation-for-abbreviation".

(** ** Exceptions *)

Inductive exn : Type :=
| ValueError (msg : string)
| TypeError (msg : string)
| KeyError (key : string)
| IndexError (msg : string)
| AttributeError (msg : string)
| AssertionError (msg : string)
| Web3Exception (msg : string)
| OtherError (cls msg : string).

(** [except Web3Exception] catches the class and its subclasses, all of
    which are the constructor [Web3Exception] here. *)
Definition is_Web3Exception (e : exn) : bool :=
  match e with
  | Web3Exception _ => true
  | _ => false
  end.

(** ** ABI literals of [Contract._get_abi] *)

Record abi_entry : Type := mk_abi
  { abi_name : string;
    abi_inputs : list string;
    abi_outputs : list string }.

Definition lower_ascii (a : ascii) : ascii :=
  let n := nat_of_ascii a in
  if andb (Nat.leb 65 n) (Nat.leb n 90) then ascii_of_nat (n + 32) else a.

Fixpoint lower (s : string) : string :=
  match s with
  | EmptyString => EmptyString
  | String a s' => String (lower_ascii a) (lower s')
  end.

Definition pair_factory_abi : list abi_entry :=
  [ mk_abi "getPair" ["address"; "address"] ["address"];
    mk_abi "allPairs" ["uint256"] ["address"];
    mk_abi "allPairsLength" [] ["uint256"] ].

Definition pair_abi : list abi_entry :=
  [ mk_abi "token0" [] ["address"];
    mk_abi "token1" [] ["address"];
    mk_abi "name" [] ["string"] ].

Definition token_abi : list abi_entry :=
  [ mk_abi "name" [] ["string"] ].

Definition _get_abi (contract_type : string) : exn + list abi_entry :=
  let t := lower contract_type in
  if existsb (String.eqb t) ["pair_factory"; "pair"; "token"] then
    if String.eqb t "pair_factory" then inr pair_factory_abi
    else if String.eqb t "pair" then inr pair_abi
    else inr token_abi
  else inl (AssertionError "contract_type should be in ['factory', 'pair', 'token']").

(** ** Generic list helpers *)

Fixpoint list_update {T : Type} (i : nat) (x : T) (l : list T) : list T :=
  match l, i with
  | [], _ => []
  | _ :: l', O => x :: l'
  | y :: l', S j => y :: list_update j x l'
  end.

Fixpoint sequence_opt {T : Type} (l : list (option T)) : option (list T) :=
  match l with
  | [] => Some []
  | None :: _ => None
  | Some x :: l' =>
      match sequence_opt l' with
      | Some xs => Some (x :: xs)
      | None => None
      end
  end.

(** The first error of a list of outcomes, in list order, or all values. *)
Fixpoint collect {E T : Type} (l : list (E + T)) : E + list T :=
  match l with
  | [] => inr []
  | inl e :: _ => inl e
  | inr x :: l' =>
      match collect l' with
      | inl e => inl e
      | inr xs => inr (x :: xs)
      end
  end.

Definition to_opt {E T : Type} (o : E + T) : option T :=
  match o with
  | inr v => Some v
  | inl _ => None
  end.

(** Sequencing of pure steps that may raise. *)
Notation "x <-! e ;; k" :=
  (match e with
   | inl err => inl err
   | inr x => k
   end) (at level 61, e at next level, right associativity).

Section World.

(** ** The web3 library, as a parameter

    [W3Contract] is the object returned by [web3.eth.contract];
    [eth_contract address abi] is that constructor, which may raise;
    [w3call c fn args] is the outcome of the expression of line 43, the
    entry [fn] of [c.functions.__dict__] applied to [args] and then
    [call()]: the decoded value, or the exception raised.  The subscript is
    evaluated first, so when [c] has no function named [fn] the outcome is
    the KeyError of that name and no call has been made. *)

Variable W3Contract : Type.

Record ETHContractFunctions : Type := mk_ETHContractFunctions
  { contract : W3Contract }.

(** ** Python values *)

Inductive pyval : Type :=
| VNone
| VInt (n : Z)
| VStr (s : string)
| VList (l : list pyval)
| VDict (d : list (string * pyval))
| VObj (o : ETHContractFunctions).

Variable eth_contract : pyval -> list abi_entry -> exn + W3Contract.
Variable w3call : W3Contract -> string -> list pyval -> exn + pyval.

Definition truthy (v : pyval) : bool :=
  match v with
  | VNone => false
  | VInt n => negb (Z.eqb n 0)
  | VStr s => negb (String.eqb s "")
  | VList l => match l with [] => false | _ => true end
  | VDict d => match d with [] => false | _ => true end
  | VObj _ => true
  end.

Definition is_None (v : pyval) : bool :=
  match v with
  | VNone => true
  | _ => false
  end.

(** ** Coroutines

    What an [async def] body does, up to its result: return, raise,
    evaluate the blocking remote-call expression of line 43, print, or
    await [asyncio.gather] of child coroutines.  Awaiting a coroutine
    directly is sequencing ([bind]). *)

Inductive event : Type :=
| EvCall (c : W3Contract) (fn : string) (args : list pyval)
| EvPrint (s : string).

(** [absent fn o]: the outcome [o] of line 43 is the KeyError of the
    subscript [functions.__dict__[fn]], raised before any function object
    is built.  [sent c fn args] is what the evaluation of line 43 adds to
    the log: the remote call, unless the name was absent. *)
Definition absent (fn : string) (o : exn + pyval) : bool :=
  match o with
  | inl (KeyError key) => String.eqb key fn
  | _ => false
  end.

Definition sent (c : W3Contract) (fn : string) (args : list pyval) : list event :=
  if absent fn (w3call c fn args) then [] else [EvCall c fn args].

Inductive coro : Type -> Type :=
| Ret {A : Type} (a : A) : coro A
| Raise {A : Type} (e : exn) : coro A
| Call {A : Type} (c : W3Contract) (fn : string) (args : list pyval)
       (k : exn + pyval -> coro A) : coro A
| PyPrint {A : Type} (s : string) (k : coro A) : coro A
| Gather {A : Type} (cs : list (coro pyval)) (k : list pyval -> coro A) : coro A.

Fixpoint bind {A B : Type} (c : coro A) : (A -> coro B) -> coro B :=
  match c in coro T return (T -> coro B) -> coro B with
  | Ret a => fun f => f a
  | Raise e => fun _ => Raise e
  | Call ct fn args k => fun f => Call ct fn args (fun o => bind (k o) f)
  | PyPrint s k => fun f => PyPrint s (bind k f)
  | Gather cs k => fun f => Gather cs (fun vs => bind (k vs) f)
  end.

(** [raise_or o k]: continue with the value of a pure step that may raise. *)
Definition raise_or {T A : Type} (o : exn + T) (k : T -> coro A) : coro A :=
  match o with
  | inl e => Raise e
  | inr v => k v
  end.

Definition terminal {A : Type} (c : coro A) : option (exn + A) :=
  match c with
  | Ret a => Some (inr a)
  | Raise e => Some (inl e)
  | _ => None
  end.

Definition ret_value {A : Type} (c : coro A) : option A :=
  match c with
  | Ret a => Some a
  | _ => None
  end.

Definition raised {A : Type} (c : coro A) : option exn :=
  match c with
  | Raise e => Some e
  | _ => None
  end.

Definition finish {A : Type} (o : exn + A) : coro A :=
  match o with
  | inl e => Raise e
  | inr a => Ret a
  end.

(** ** Reference evaluation

    [result c] is the outcome of [c] when the children of every gather run
    one after the other, left to right; [events c] is the log of that run. *)

Fixpoint result {A : Type} (c : coro A) : exn + A :=
  match c with
  | Ret a => inr a
  | Raise e => inl e
  | Call ct fn args k => result (k (w3call ct fn args))
  | PyPrint _ k => result k
  | Gather cs k =>
      match collect (map (fun c0 => result c0) cs) with
      | inl e => inl e
      | inr vs => result (k vs)
      end
  end.

Fixpoint events {A : Type} (c : coro A) : list event :=
  match c with
  | Ret _ => []
  | Raise _ => []
  | Call ct fn args k => sent ct fn args ++ events (k (w3call ct fn args))
  | PyPrint s k => EvPrint s :: events k
  | Gather cs k =>
      List.concat (map (fun c0 => events c0) cs) ++
      match collect (map (fun c0 => result c0) cs) with
      | inl _ => []
      | inr vs => events (k vs)
      end
  end.

(** The number of steps that remain, at most, before [c] has returned or
    raised. *)
Fixpoint size {A : Type} (c : coro A) : nat :=
  match c with
  | Ret _ => O
  | Raise _ => O
  | Call ct fn args k => S (size (k (w3call ct fn args)))
  | PyPrint _ k => S (size k)
  | Gather cs k =>
      S (list_sum (map (fun c0 => size c0) cs) +
         match collect (map (fun c0 => result c0) cs) with
         | inl _ => O
         | inr vs => size (k vs)
         end)
  end.

(** ** The event loop

    One step of the loop is named by a [pick]: [Fire] performs the call or
    print at the head of the coroutine, or resumes a gather all of whose
    children have returned; [Propagate i] resumes a gather with the
    exception of its child [i]; [Inside i p] lets child [i] of a gather
    take the step [p].  A schedule is a list of picks; every interleaving
    of the children of every gather is some schedule.  A gather resumed
    with an exception leaves its other children behind: the log of a run
    that raises ends at the propagation. *)

Inductive pick : Type :=
| Fire
| Propagate (i : nat)
| Inside (i : nat) (p : pick).

Fixpoint step_at {A : Type} (p : pick) (c : coro A) {struct p}
  : option (list event * coro A) :=
  match c in coro T return option (list event * coro T) with
  | Ret _ => None
  | Raise _ => None
  | Call ct fn args k =>
      match p with
      | Fire => Some (sent ct fn args, k (w3call ct fn args))
      | _ => None
      end
  | PyPrint s k =>
      match p with
      | Fire => Some ([EvPrint s], k)
      | _ => None
      end
  | Gather cs k =>
      match p with
      | Fire =>
          match sequence_opt (map (fun c0 => ret_value c0) cs) with
          | Some vs => Some ([], k vs)
          | None => None
          end
      | Propagate i =>
          match nth_error cs i with
          | Some ci =>
              match raised ci with
              | Some e => Some ([], Raise e)
              | None => None
              end
          | None => None
          end
      | Inside i p' =>
          match nth_error cs i with
          | Some ci =>
              match step_at p' ci with
              | Some (ev, ci') => Some (ev, Gather (list_update i ci' cs) k)
              | None => None
              end
          | None => None
          end
      end
  end.

Fixpoint exec {A : Type} (sched : list pick) (c : coro A)
  : option (list event * coro A) :=
  match sched with
  | [] => Some ([], c)
  | p :: sched' =>
      match step_at p c with
      | None => None
      | Some (ev, c') =>
          match exec sched' c' with
          | None => None
          | Some (log, c'') => Some (ev ++ log, c'')
          end
      end
  end.

(** A complete run: the schedule is accepted and ends in a returned value
    or a raised exception. *)
Definition run {A : Type} (sched : list pick) (c : coro A)
  : option (list event * (exn + A)) :=
  match exec sched c with
  | Some (log, c') =>
      match terminal c' with
      | Some o => Some (log, o)
      | None => None
      end
  | None => None
  end.

(** [always c P]: [c] has a complete run, and every complete run of [c],
    under whatever schedule, satisfies [P]. *)
Definition always {A : Type} (c : coro A) (P : list event -> exn + A -> Prop) : Prop :=
  (exists sched log o, run sched c = Some (log, o)) /\
  (forall sched log o, run sched c = Some (log, o) -> P log o).


(** ** The left-to-right schedule

    [schedule c] runs the children of every gather to completion one after
    the other, then resumes the gather: with their values, or with the
    exception of the first child in list order that raised. *)

Fixpoint inside_all (i : nat) (ss : list (list pick)) : list pick :=
  match ss with
  | [] => []
  | s :: ss' => map (Inside i) s ++ inside_all (S i) ss'
  end.

Fixpoint first_error {E T : Type} (l : list (E + T)) : nat :=
  match l with
  | [] => O
  | inl _ :: _ => O
  | inr _ :: l' => S (first_error l')
  end.

Fixpoint schedule {A : Type} (c : coro A) : list pick :=
  match c with
  | Ret _ => []
  | Raise _ => []
  | Call ct fn args k => Fire :: schedule (k (w3call ct fn args))
  | PyPrint _ k => Fire :: schedule k
  | Gather cs k =>
      inside_all 0 (map (fun c0 => schedule c0) cs) ++
      match collect (map (fun c0 => result c0) cs) with
      | inl _ => [Propagate (first_error (map (fun c0 => result c0) cs))]
      | inr vs => Fire :: schedule (k vs)
      end
  end.

(** The strings printed in a log, in order. *)
Fixpoint printed (log : list event) : list string :=
  match log with
  | [] => []
  | EvPrint s :: log' => s :: printed log'
  | EvCall _ _ _ :: log' => printed log'
  end.

(** The remote calls of a log, in order. *)
Fixpoint calls (log : list event) : list (W3Contract * string * list pyval) :=
  match log with
  | [] => []
  | EvCall c fn a :: log' => (c, fn, a) :: calls log'
  | EvPrint _ :: log' => calls log'
  end.

(** ** Python built-ins used by the module *)

Definition type_name (v : pyval) : string :=
  match v with
  | VNone => "NoneType"
  | VInt _ => "int"
  | VStr _ => "str"
  | VList _ => "list"
  | VDict _ => "dict"
  | VObj _ => "ETHContractFunctions"
  end.

Definition quoted (s : string) : string :=
  String.append "'" (String.append s "'").

Fixpoint assoc (key : string) (d : list (string * pyval)) : option pyval :=
  match d with
  | [] => None
  | (k, v) :: d' => if String.eqb k key then Some v else assoc key d'
  end.

(** [d[key]] for a string key. *)
Definition subscript (d : pyval) (key : string) : exn + pyval :=
  match d with
  | VDict kv =>
      match assoc key kv with
      | Some v => inr v
      | None => inl (KeyError key)
      end
  | VList _ => inl (TypeError "list indices must be integers or slices, not str")
  | VStr _ => inl (TypeError "string indices must be integers")
  | _ => inl (TypeError (String.append (quoted (type_name d)) " object is not subscriptable"))
  end.

(** [l[i]] for a list produced by gather. *)
Definition index (l : list pyval) (i : nat) : exn + pyval :=
  match nth_error l i with
  | Some v => inr v
  | None => inl (IndexError "list index out of range")
  end.

Fixpoint chars (s : string) : list pyval :=
  match s with
  | EmptyString => []
  | String a s' => VStr (String a EmptyString) :: chars s'
  end.

(** [for d in v]. *)
Definition iterate (v : pyval) : exn + list pyval :=
  match v with
  | VList l => inr l
  | VDict d => inr (map (fun kv => VStr (fst kv)) d)
  | VStr s => inr (chars s)
  | _ => inl (TypeError (String.append (quoted (type_name v)) " object is not iterable"))
  end.

(** [len(v)]. *)
Definition len (v : pyval) : exn + nat :=
  match v with
  | VList l => inr (List.length l)
  | VDict d => inr (List.length d)
  | VStr s => inr (String.length s)
  | _ => inl (TypeError (String.append "object of type " (String.append (quoted (type_name v)) " has no len()")))
  end.

(** [range(v)], as the list of its indices. *)
Definition range (v : pyval) : exn + list Z :=
  match v with
  | VInt n => inr (map Z.of_nat (seq 0 (Z.to_nat n)))
  | _ => inl (TypeError (String.append (quoted (type_name v)) " object cannot be interpreted as an integer"))
  end.

Definition str_of_nat (n : nat) : string :=
  NilEmpty.string_of_uint (Nat.to_uint n).

(** ** class AsyncBatchProcessor

    A queued function is a coroutine function: applied to its positional
    and keyword arguments it only creates the coroutine object. *)

Definition pyfunc : Type := list pyval -> list (string * pyval) -> coro pyval.

Record AsyncBatchProcessor : Type := mk_AsyncBatchProcessor
  { limit : Z;
    func : list pyfunc;
    args : list (list pyval);
    kwargs : list (list (string * pyval)) }.

Definition AsyncBatchProcessor_init (limit : Z) : AsyncBatchProcessor :=
  mk_AsyncBatchProcessor limit [] [] [].

(** The loop of [process_tasks]: [func[i]] applied to [args[i]] and
    [kwargs[i]], for [i] below [len(func)]. *)
Fixpoint make_tasks (fs : list pyfunc) (az : list (list pyval))
         (kz : list (list (string * pyval))) : exn + list (coro pyval) :=
  match fs with
  | [] => inr []
  | f :: fs' =>
      match az, kz with
      | a :: az', k :: kz' =>
          ts <-! make_tasks fs' az' kz' ;; inr (f a k :: ts)
      | _, _ => inl (IndexError "list index out of range")
      end
  end.

(** Both methods change [self] before their first suspension point, so each
    is the pair of the object after the call and the coroutine that remains
    to be awaited. *)
Definition process_tasks (self : AsyncBatchProcessor)
  : AsyncBatchProcessor * coro pyval :=
  match func self with
  | [] => (self, Ret VNone)
  | _ =>
      match make_tasks (func self) (args self) (kwargs self) with
      | inl e => (self, Raise e)
      | inr tasks =>
          (mk_AsyncBatchProcessor (limit self) [] [] [],
           Gather tasks (fun vs => Ret (VList vs)))
      end
  end.

Definition append_task (self : AsyncBatchProcessor) (f : pyfunc)
           (a : list pyval) (k : list (string * pyval)) : AsyncBatchProcessor :=
  mk_AsyncBatchProcessor (limit self) (func self ++ [f]) (args self ++ [a])
                         (kwargs self ++ [k]).

Definition add_task (self : AsyncBatchProcessor) (f : pyfunc)
           (a : list pyval) (k : list (string * pyval))
  : AsyncBatchProcessor * coro pyval :=
  let self1 := append_task self f a k in
  if Z.of_nat (List.length (func self1)) >=? limit self1
  then process_tasks self1
  else (self1, Ret VNone).

(** ** class ETHContractFunctions *)

Definition ETHContractFunctions_init (address : pyval) (abi : list abi_entry)
  : exn + ETHContractFunctions :=
  c <-! eth_contract address abi ;; inr (mk_ETHContractFunctions c).

(** The body of [__call__] is the expression of line 43 inside a [try]:
    the node [Call] evaluates it (the subscript of [functions.__dict__],
    then the call), and the continuation is the [except Web3Exception]
    clause, which lets every other exception through. *)
Definition __call__ (self : ETHContractFunctions) (function_name : string)
           (args : list pyval) : coro pyval :=
  Call (contract self) function_name args
       (fun o =>
          match o with
          | inr v => Ret v
          | inl e => if is_Web3Exception e then Ret (VStr "NotFound") else Raise e
          end).

Definition __getattr__ (self : ETHContractFunctions) (function_name : string)
  : list pyval -> coro pyval :=
  fun args => __call__ self function_name args.

(** [v.name(args)] for a value [v] that may or may not be a proxy. *)
Definition call_method (v : pyval) (name : string) (args : list pyval) : coro pyval :=
  match v with
  | VObj o => __getattr__ o name args
  | _ => Raise (AttributeError
                  (String.append (quoted (type_name v))
                     (String.append " object has no attribute " (quoted name))))
  end.

(** ** class Contract *)

Record DataFrame : Type := mk_DataFrame
  { pair_address : list pyval;
    pair_name : list pyval;
    token0_address : list pyval;
    token0_name : list pyval;
    token1_address : list pyval;
    token1_name : list pyval }.

Definition empty_DataFrame : DataFrame := mk_DataFrame [] [] [] [] [] [].

(** [a._append(b, ignore_index=True)]. *)
Definition _append (a b : DataFrame) : DataFrame :=
  mk_DataFrame (pair_address a ++ pair_address b)
               (pair_name a ++ pair_name b)
               (token0_address a ++ token0_address b)
               (token0_name a ++ token0_name b)
               (token1_address a ++ token1_address b)
               (token1_name a ++ token1_name b).

Record Contract : Type := mk_Contract
  { result_df : DataFrame }.

Definition Contract_init : Contract := mk_Contract empty_DataFrame.

(** [[d[key] for d in ds]]. *)
Definition column (key : string) (ds : list pyval) : exn + list pyval :=
  collect (map (fun d => subscript d key) ds).

Definition to_dataframe (results : pyval) : exn + DataFrame :=
  ds <-! iterate results ;;
  c1 <-! column "pair_address" ds ;;
  c2 <-! column "pair_name" ds ;;
  c3 <-! column "token0_address" ds ;;
  c4 <-! column "token0_name" ds ;;
  c5 <-! column "token1_address" ds ;;
  c6 <-! column "token1_name" ds ;;
  inr (mk_DataFrame c1 c2 c3 c4 c5 c6).

Definition async_get_token_info (token_address : pyval) : coro pyval :=
  raise_or (_get_abi "token") (fun abi =>
  raise_or (ETHContractFunctions_init token_address abi) (fun contract_functions =>
  __getattr__ contract_functions "name" [])).

Definition async_get_pair_info (pair_address : pyval) : coro pyval :=
  raise_or (_get_abi "pair") (fun abi =>
  raise_or (ETHContractFunctions_init pair_address abi) (fun contract_functions =>
  Gather [ __getattr__ contract_functions "name" [];
           __getattr__ contract_functions "token0" [];
           __getattr__ contract_functions "token1" [] ]
         (fun pair_info =>
  raise_or (index pair_info 0) (fun v0 =>
  raise_or (index pair_info 1) (fun v1 =>
  raise_or (index pair_info 2) (fun v2 =>
  Ret (VDict [("pair_name", v0); ("token0", v1); ("token1", v2)]))))))).

(** [token0, token1 = ...]: unpacking a list into two names. *)
Definition unpack2 (l : list pyval) : exn + pyval * pyval :=
  match l with
  | [a; b] => inr (a, b)
  | _ :: _ :: _ :: _ => inl (ValueError "too many values to unpack (expected 2)")
  | _ => inl (ValueError "not enough values to unpack (expected 2)")
  end.

Definition async_get_pair_by_index (factory_contract uint factory_address : pyval)
  : coro pyval :=
  if andb (is_None factory_contract) (is_None factory_address) then
    Raise (ValueError "Either pair_factory_contract or pair_factory_address must be set")
  else
    raise_or (if negb (truthy factory_contract)
              then abi <-! _get_abi "pair_factory" ;;
                   o <-! ETHContractFunctions_init factory_address abi ;;
                   inr (VObj o)
              else inr factory_contract) (fun factory_contract =>
    bind (call_method factory_contract "allPairs" [uint]) (fun pair_address =>
    bind (async_get_pair_info pair_address) (fun pair_info =>
    raise_or (subscript pair_info "token0") (fun a0 =>
    raise_or (subscript pair_info "token1") (fun a1 =>
    Gather [async_get_token_info a0; async_get_token_info a1] (fun both =>
    raise_or (unpack2 both) (fun '(token0, token1) =>
    raise_or (subscript pair_info "pair_name") (fun f2 =>
    raise_or (subscript pair_info "token0") (fun f3 =>
    raise_or (subscript pair_info "token1") (fun f5 =>
    Ret (VDict [ ("pair_address", pair_address);
                 ("pair_name", f2);
                 ("token0_address", f3);
                 ("token0_name", token0);
                 ("token1_address", f5);
                 ("token1_name", token1) ]))))))))))).

(** The bound method [self.async_get_pair_by_index] as a queued function:
    positional arguments first, then keywords, then the default [None]. *)
Definition parameter (i : nat) (name : string) (a : list pyval)
           (k : list (string * pyval)) : pyval :=
  match nth_error a i with
  | Some v => v
  | None =>
      match assoc name k with
      | Some v => v
      | None => VNone
      end
  end.

Definition async_get_pair_by_index_func : pyfunc :=
  fun a k =>
    async_get_pair_by_index (parameter 0 "factory_contract" a k)
                            (parameter 1 "uint" a k)
                            (parameter 2 "factory_address" a k).

Definition default_factory_address : pyval :=
  VStr "0x5C69bEe701ef814a2B6a3EDD4B1652CB9cc5aA6f".

Definition default_limit : Z := 5.

(** [async_get_pairs] returns [None] and leaves its rows in
    [self.result_df]: the coroutine returns the object after the call
    together with the returned value.

    [pairs_loop] is the [for i in range(pairs_length)] loop on the indices
    still to visit, followed by the statements after the loop. *)
Fixpoint pairs_loop (self : Contract) (processor : AsyncBatchProcessor)
         (contract_functions : ETHContractFunctions) (idxs : list Z)
  : coro (Contract * pyval) :=
  match idxs with
  | i :: rest =>
      let (processor1, awaited) :=
        add_task processor async_get_pair_by_index_func
                 [VObj contract_functions; VInt i] [] in
      bind awaited (fun results =>
      if truthy results then
        raise_or (to_dataframe results) (fun df =>
        raise_or (len results) (fun n =>
        PyPrint (String.append (str_of_nat n) " done")
                (pairs_loop (mk_Contract (_append (result_df self) df))
                            processor1 contract_functions rest)))
      else pairs_loop self processor1 contract_functions rest)
  | [] =>
      let (processor1, awaited) := process_tasks processor in
      bind awaited (fun final_results =>
      if truthy final_results then
        raise_or (to_dataframe final_results) (fun df =>
        Ret (mk_Contract (_append (result_df self) df), VNone))
      else Ret (self, VNone))
  end.

Definition async_get_pairs (self : Contract) (factory_address : pyval) (limit : Z)
  : coro (Contract * pyval) :=
  let processor := AsyncBatchProcessor_init limit in
  raise_or (_get_abi "pair_factory") (fun abi =>
  raise_or (ETHContractFunctions_init factory_address abi) (fun contract_functions =>
  bind (__getattr__ contract_functions "allPairsLength" []) (fun pairs_length =>
  raise_or (range pairs_length) (fun idxs =>
  pairs_loop self processor contract_functions idxs)))).

(** ** Submitting a list of tasks one at a time, then flushing

    The awaited coroutine of each [add_task] in turn and of the final
    [process_tasks].  A flush that runs a batch awaits a gather of the
    batch; [flush_size] is the size of that batch. *)

Definition task : Type := pyfunc * list pyval * list (string * pyval).

Fixpoint submit_all (self : AsyncBatchProcessor) (tasks : list task)
  : AsyncBatchProcessor * list (coro pyval) :=
  match tasks with
  | [] => (self, [])
  | (f, a, k) :: rest =>
      let (self1, awaited) := add_task self f a k in
      let (self2, others) := submit_all self1 rest in
      (self2, awaited :: others)
  end.

Definition submit_then_flush (limit : Z) (tasks : list task)
  : list (coro pyval) * coro pyval :=
  let (self1, awaited) := submit_all (AsyncBatchProcessor_init limit) tasks in
  (awaited, snd (process_tasks self1)).

Definition flush_size (c : coro pyval) : option nat :=
  match c with
  | Gather cs _ => Some (List.length cs)
  | _ => None
  end.

(** ** Vocabulary of the statements *)

Definition apply_task (t : task) : coro pyval :=
  match t with
  | (f, a, k) => f a k
  end.

(** The pending queue of [self] holds the tasks [ts], in submission order. *)
Definition queued (self : AsyncBatchProcessor) (ts : list task) : Prop :=
  func self = map (fun t => fst (fst t)) ts /\
  args self = map (fun t => snd (fst t)) ts /\
  kwargs self = map (fun t => snd t) ts.

(** The states of a processor created with limit [L] and used only
    through its two methods. *)
Inductive reachable (L : Z) : AsyncBatchProcessor -> Prop :=
| reachable_init : reachable L (AsyncBatchProcessor_init L)
| reachable_add_task self f a k :
    reachable L self -> reachable L (fst (add_task self f a k))
| reachable_process_tasks self :
    reachable L self -> reachable L (fst (process_tasks self)).

Fixpoint flush_sizes (cs : list (coro pyval)) : list nat :=
  match cs with
  | [] => []
  | c :: cs' =>
      match flush_size c with
      | Some n => n :: flush_sizes cs'
      | None => flush_sizes cs'
      end
  end.

(** What the proxy makes of the outcome of a remote call that did not fail
    outside the web3 hierarchy. *)
Definition degrade (o : exn + pyval) : pyval :=
  match o with
  | inr v => v
  | inl _ => VStr "NotFound"
  end.

Definition recoverable (o : exn + pyval) : bool :=
  match o with
  | inr _ => true
  | inl e => is_Web3Exception e
  end.

(** The outcome of a proxy invocation, from that of the remote call. *)
Definition proxied (o : exn + pyval) : exn + pyval :=
  match o with
  | inr v => inr v
  | inl e => if is_Web3Exception e then inr (VStr "NotFound") else inl e
  end.

(** The dictionary built by [async_get_pair_by_index]. *)
Definition PairRecord (pa pn a0 n0 a1 n1 : pyval) : pyval :=
  VDict [ ("pair_address", pa);
          ("pair_name", pn);
          ("token0_address", a0);
          ("token0_name", n0);
          ("token1_address", a1);
          ("token1_name", n1) ].

Definition is_record (r : pyval) : Prop :=
  exists pa pn a0 n0 a1 n1, r = PairRecord pa pn a0 n0 a1 n1.

Definition rows (df : DataFrame) : nat := List.length (pair_address df).

Definition not_found_error : exn :=
  TypeError "'str' object cannot be interpreted as an integer".

Definition configuration_error : exn :=
  ValueError "Either pair_factory_contract or pair_factory_address must be set".

(** ** The rest of the module *)

(** [get_pair_length]: the proxy is bound first, then [asyncio.run] runs
    the proxied allPairsLength() to completion. *)
Definition get_pair_length (factory_address : pyval) : coro pyval :=
  raise_or (_get_abi "pair_factory") (fun abi =>
  raise_or (ETHContractFunctions_init factory_address abi) (fun contract_functions =>
  __getattr__ contract_functions "allPairsLength" [])).

(** The tasks a flush runs: the children of its gather. *)
Definition batch_of (c : coro pyval) : list (coro pyval) :=
  match c with
  | Gather cs _ => cs
  | _ => []
  end.

(** [abi] declares a function [fn] of [n] inputs. *)
Definition declared (abi : list abi_entry) (fn : string) (n : nat) : bool :=
  existsb (fun e => andb (String.eqb (abi_name e) fn)
                         (Nat.eqb (List.length (abi_inputs e)) n)) abi.

(** Row [i] of a frame, as a record. *)
Definition row (df : DataFrame) (i : nat) : option pyval :=
  match nth_error (pair_address df) i, nth_error (pair_name df) i,
        nth_error (token0_address df) i, nth_error (token0_name df) i,
        nth_error (token1_address df) i, nth_error (token1_name df) i with
  | Some pa, Some pn, Some a0, Some n0, Some a1, Some n1 =>
      Some (PairRecord pa pn a0 n0 a1 n1)
  | _, _, _, _, _, _ => None
  end.

Definition column_names : list string :=
  [ "pair_address"; "pair_name"; "token0_address"; "token0_name";
    "token1_address"; "token1_name" ].

(** The queued task of [async_get_pairs] for index [i]. *)
Definition fetch_task (contract_functions : ETHContractFunctions) (i : Z) : task :=
  (async_get_pair_by_index_func, [VObj contract_functions; VInt i], []).

End World.

Arguments VNone {W3Contract}.
Arguments VInt {W3Contract} n.
Arguments VStr {W3Contract} s.
Arguments VList {W3Contract} l.
Arguments VDict {W3Contract} d.
Arguments Ret {W3Contract A} a.
Arguments Raise {W3Contract A} e.
Arguments PyPrint {W3Contract A} s k.
Arguments finish {W3Contract A} o.
Arguments EvPrint {W3Contract} s.
Arguments AsyncBatchProcessor_init {W3Contract} limit.
Arguments empty_DataFrame {W3Contract}.
Arguments Contract_init {W3Contract}.
Arguments default_factory_address {W3Contract}.

(** ** Example nodes

    A node is a table from (address, function, integer arguments) to the
    outcome of the call; a contract object is its address with the function
    names of its ABI.  A function outside the ABI is a [KeyError]; a call
    the table does not answer fails outside the web3 hierarchy. *)

Definition W3 : Type := string * list string.
Definition val : Type := pyval W3.
Definition node_table : Type := list (string * string * list Z * (exn + val)).

Definition arg_key (a : val) : Z :=
  match a with
  | VInt n => n
  | _ => -1
  end.

Fixpoint list_Z_eqb (a b : list Z) : bool :=
  match a, b with
  | [], [] => true
  | x :: a', y :: b' => andb (Z.eqb x y) (list_Z_eqb a' b')
  | _, _ => false
  end.

Fixpoint table_lookup (addr fn : string) (a : list Z) (t : node_table)
  : option (exn + val) :=
  match t with
  | [] => None
  | (addr', fn', a', o) :: t' =>
      if andb (String.eqb addr addr') (andb (String.eqb fn fn') (list_Z_eqb a a'))
      then Some o
      else table_lookup addr fn a t'
  end.

Definition table_call (t : node_table) (c : W3) (fn : string) (a : list val)
  : exn + val :=
  if existsb (String.eqb fn) (snd c) then
    match table_lookup (fst c) fn (map arg_key a) t with
    | Some o => o
    | None => inl (OtherError "ConnectionError" "no reply")
    end
  else inl (KeyError fn).

(** A binding that accepts every string as an address. *)
Definition lax_contract (address : val) (abi : list abi_entry) : exn + W3 :=
  match address with
  | VStr s => inr (s, map abi_name abi)
  | _ => inl (TypeError "address must be a string")
  end.

(** A binding that rejects a string without the hexadecimal prefix. *)
Definition strict_contract (address : val) (abi : list abi_entry) : exn + W3 :=
  match address with
  | VStr s =>
      if String.prefix "0x" s then inr (s, map abi_name abi)
      else inl (Web3Exception "InvalidAddress")
  | _ => inl (TypeError "address must be a string")
  end.

Definition ok (s : string) : exn + val := inr (VStr s).

Definition reverted : exn + val := inl (Web3Exception "execution reverted").

(** A factory with three pairs over three tokens; a call to the address
    "NotFound" fails remotely. *)
Definition three_pairs : node_table :=
  [ ("0xF", "allPairsLength", [], inr (VInt 3));
    ("0xF", "allPairs", [0], ok "0xP0");
    ("0xF", "allPairs", [1], ok "0xP1");
    ("0xF", "allPairs", [2], ok "0xP2");
    ("0xP0", "name", [], ok "P0");
    ("0xP0", "token0", [], ok "0xA");
    ("0xP0", "token1", [], ok "0xB");
    ("0xP1", "name", [], ok "P1");
    ("0xP1", "token0", [], ok "0xB");
    ("0xP1", "token1", [], ok "0xC");
    ("0xP2", "name", [], ok "P2");
    ("0xP2", "token0", [], ok "0xA");
    ("0xP2", "token1", [], ok "0xC");
    ("0xA", "name", [], ok "TokA");
    ("0xB", "name", [], ok "TokB");
    ("0xC", "name", [], ok "TokC");
    ("NotFound", "name", [], reverted);
    ("NotFound", "token0", [], reverted);
    ("NotFound", "token1", [], reverted) ].

(** The same node with one call failing remotely. *)
Definition token0_of_pair2_fails : node_table :=
  ("0xP2", "token0", [], reverted) :: three_pairs.

Definition name_of_pair2_fails : node_table :=
  ("0xP2", "name", [], reverted) :: three_pairs.

Definition allPairsLength_fails : node_table :=
  ("0xF", "allPairsLength", [], reverted) :: three_pairs.

Definition allPairs_1_fails : node_table :=
  ("0xF", "allPairs", [1], reverted) :: three_pairs.

(** A node that reports three pairs and answers nothing after that. *)
Definition silent_after_length : node_table :=
  [ ("0xF", "allPairsLength", [], inr (VInt 3)) ].

Definition factory : ETHContractFunctions W3 :=
  mk_ETHContractFunctions ("0xF", map abi_name pair_factory_abi).

(** A queued function that makes one remote call on the token whose
    address is its first argument. *)
Definition name_of : pyfunc W3 :=
  fun a _ =>
    match a with
    | VStr s :: _ => __call__ (mk_ETHContractFunctions (s, ["name"])) "name" []
    | _ => Raise (TypeError "missing address")
    end.

(** A node whose contract objects carry the ABI they were bound with and
    which answers every declared function called with the declared number
    of arguments. *)
Definition W3A : Type := string * list abi_entry.

Definition abi_contract (address : pyval W3A) (abi : list abi_entry) : exn + W3A :=
  match address with
  | VStr s => inr (s, abi)
  | _ => inl (TypeError "address must be a string")
  end.

Definition abi_call (c : W3A) (fn : string) (a : list (pyval W3A)) : exn + pyval W3A :=
  if declared (snd c) fn (List.length a) then
    if String.eqb fn "allPairsLength" then inr (VInt 2)
    else inr (VStr (String.append (fst c) (String.append "." fn)))
  else inl (KeyError fn).

(** A queued function that raises. *)
Definition failing : pyfunc W3 :=
  fun _ _ => Raise (OtherError "RuntimeError" "boom").

(** * Facts *)

Section Facts.

Variable W3Contract : Type.
Variable eth_contract : pyval W3Contract -> list abi_entry -> exn + W3Contract.
Variable w3call : W3Contract -> string -> list (pyval W3Contract) -> exn + pyval W3Contract.

Local Notation PV := (pyval W3Contract).
Local Notation CO := (coro W3Contract).

(** ** Lists *)

Lemma nth_error_list_update_eq (T : Type) (l : list T) (i : nat) (x y : T) :
  nth_error l i = Some y -> nth_error (list_update i x l) i = Some x.
Proof.
  revert i; induction l as [|z l IH]; intros [|i] H; simpl in *;
    try discriminate; auto.
Qed.

Lemma list_update_twice (T : Type) (l : list T) (i : nat) (x y : T) :
  list_update i x (list_update i y l) = list_update i x l.
Proof.
  revert i; induction l as [|z l IH]; intros [|i]; simpl; auto.
  now rewrite IH.
Qed.

Lemma list_update_middle (T : Type) (pre post : list T) (x y : T) :
  list_update (List.length pre) x (pre ++ y :: post) = pre ++ x :: post.
Proof.
  induction pre as [|z pre IH]; simpl; auto.
  now rewrite IH.
Qed.

Lemma map_list_update_same (T U : Type) (f : T -> U) (l : list T) (i : nat) (x y : T) :
  nth_error l i = Some y -> f x = f y -> map f (list_update i x l) = map f l.
Proof.
  revert i; induction l as [|z l IH]; intros [|i] H E; simpl in *;
    try discriminate; auto.
  - injection H as ->. now rewrite E.
  - now rewrite (IH i H E).
Qed.

Lemma collect_to_opt (E T : Type) (l : list (E + T)) :
  to_opt (collect l) = sequence_opt (map (@to_opt E T) l).
Proof.
  induction l as [|[e|x] l IH]; simpl; auto.
  rewrite <- IH. destruct (collect l); reflexivity.
Qed.

Lemma sequence_opt_nth_None (T : Type) (l : list (option T)) (i : nat) :
  nth_error l i = Some None -> sequence_opt l = None.
Proof.
  revert i; induction l as [|[x|] l IH]; intros [|i] H; simpl in *;
    try discriminate; auto.
  now rewrite (IH i H).
Qed.

Lemma collect_app (E T : Type) (a b : list (E + T)) (xs ys : list T) :
  collect a = inr xs -> collect b = inr ys -> collect (a ++ b) = inr (xs ++ ys).
Proof.
  revert xs; induction a as [|[e|x] a IH]; simpl; intros xs Ha Hb.
  - now injection Ha as <-.
  - discriminate.
  - destruct (collect a) as [e|xs']; [discriminate|].
    injection Ha as <-. now rewrite (IH xs' eq_refl Hb).
Qed.

Lemma collect_length (E T : Type) (l : list (E + T)) (xs : list T) :
  collect l = inr xs -> List.length xs = List.length l.
Proof.
  revert xs; induction l as [|[e|x] l IH]; simpl; intros xs H.
  - now injection H as <-.
  - discriminate.
  - destruct (collect l) as [e|xs']; [discriminate|].
    injection H as <-. simpl. now rewrite (IH xs' eq_refl).
Qed.

Lemma collect_first_error (E T : Type) (l : list (E + T)) (e : E) :
  collect l = inl e -> nth_error l (first_error l) = Some (inl e).
Proof.
  induction l as [|[e'|x] l IH]; simpl; intros H.
  - discriminate.
  - now injection H as ->.
  - destruct (collect l) as [e''|xs]; [|discriminate].
    injection H as ->. now apply IH.
Qed.

Lemma collect_Forall2 (E T U : Type) (f : U -> E + T) (l : list U) (xs : list T) :
  Forall2 (fun u x => f u = inr x) l xs -> collect (map f l) = inr xs.
Proof.
  induction 1 as [|u x l xs H _ IH]; simpl; auto.
  now rewrite H, IH.
Qed.

(** ** Coroutines *)

Lemma coro_induction (P : forall A : Type, CO A -> Prop) :
  (forall A (a : A), P A (Ret a)) ->
  (forall A e, P A (Raise e)) ->
  (forall A ct fn a (k : exn + PV -> CO A),
      (forall o, P A (k o)) -> P A (Call ct fn a k)) ->
  (forall A s (k : CO A), P A k -> P A (PyPrint s k)) ->
  (forall A cs (k : list PV -> CO A),
      Forall (P PV) cs -> (forall vs, P A (k vs)) -> P A (Gather cs k)) ->
  forall A (c : CO A), P A c.
Proof.
  intros HRet HRaise HCall HPrint HGather.
  exact (fix F A (c : CO A) {struct c} : P A c :=
           match c as c0 in coro _ T return P T c0 with
           | Ret a => HRet _ a
           | Raise e => HRaise _ e
           | Call ct fn a k => HCall _ ct fn a k (fun o => F _ (k o))
           | PyPrint s k => HPrint _ s k (F _ k)
           | Gather cs k =>
               HGather _ cs k
                 ((fix G (l : list (CO PV)) : Forall (P PV) l :=
                     match l with
                     | [] => Forall_nil _
                     | c0 :: l' => Forall_cons c0 (F _ c0) (G l')
                     end) cs)
                 (fun vs => F _ (k vs))
           end).
Qed.

Lemma result_bind (A B : Type) (c : CO A) (f : A -> CO B) :
  result w3call (bind c f) =
  match result w3call c with
  | inl e => inl e
  | inr a => result w3call (f a)
  end.
Proof.
  revert B f. pattern A, c. apply coro_induction; clear A c; simpl; intros; auto.
  destruct (collect _); auto.
Qed.

Lemma events_bind (A B : Type) (c : CO A) (f : A -> CO B) :
  events w3call (bind c f) =
  events w3call c ++
  match result w3call c with
  | inl _ => []
  | inr a => events w3call (f a)
  end.
Proof.
  revert B f. pattern A, c. apply coro_induction; clear A c; simpl; intros; auto.
  - rewrite <- app_assoc. f_equal. auto.
  - f_equal. auto.
  - rewrite <- app_assoc. f_equal.
    destruct (collect _); auto.
Qed.

(** ** Steps keep the value of a coroutine *)

Lemma ret_value_result (A : Type) (c : CO A) (v : A) :
  ret_value c = Some v -> c = Ret v.
Proof.
  destruct c; simpl; intros H; try discriminate. now injection H as ->.
Qed.

Lemma raised_result (A : Type) (c : CO A) (e : exn) :
  raised c = Some e -> c = Raise e.
Proof.
  destruct c; simpl; intros H; try discriminate. now injection H as ->.
Qed.

Lemma all_returned (cs : list (CO PV)) (vs : list PV) :
  sequence_opt (map (fun c0 => ret_value c0) cs) = Some vs ->
  cs = map (fun v => Ret v) vs.
Proof.
  revert vs; induction cs as [|c cs IH]; simpl; intros vs H.
  - now injection H as <-.
  - destruct (ret_value c) as [v|] eqn:E; [|discriminate].
    destruct (sequence_opt _) as [vs'|]; [|discriminate].
    injection H as <-. simpl.
    now rewrite (ret_value_result _ E), (IH vs' eq_refl).
Qed.

Lemma collect_returned (vs : list PV) :
  collect (map (fun c0 : CO PV => result w3call c0) (map (fun v => Ret v) vs)) = inr vs.
Proof.
  induction vs as [|v vs IH]; simpl; auto. now rewrite IH.
Qed.

Lemma events_returned (vs : list PV) :
  List.concat (map (fun c0 : CO PV => events w3call c0) (map (fun v => Ret v) vs)) = [].
Proof.
  induction vs as [|v vs IH]; simpl; auto.
Qed.

Lemma collect_update (cs : list (CO PV)) (i : nat) (ci ci' : CO PV) :
  nth_error cs i = Some ci ->
  to_opt (result w3call ci') = to_opt (result w3call ci) ->
  to_opt (collect (map (fun c0 : CO PV => result w3call c0) (list_update i ci' cs)))
  = to_opt (collect (map (fun c0 : CO PV => result w3call c0) cs)).
Proof.
  intros N V.
  assert (M : map (fun c0 : CO PV => to_opt (result w3call c0)) (list_update i ci' cs)
              = map (fun c0 : CO PV => to_opt (result w3call c0)) cs).
  { now apply map_list_update_same with (y := ci). }
  rewrite !collect_to_opt, !map_map. now rewrite M.
Qed.

Lemma step_at_value (p : pick) :
  forall (A : Type) (c c' : CO A) (ev : list (event W3Contract)),
    step_at w3call p c = Some (ev, c') ->
    to_opt (result w3call c') = to_opt (result w3call c).
Proof.
  induction p as [| i | i p IH]; intros A c c' ev H; destruct c; simpl in H;
    try discriminate.
  - now injection H as _ <-.
  - now injection H as _ <-.
  - destruct (sequence_opt _) as [vs|] eqn:E; [|discriminate].
    injection H as _ <-. simpl.
    now rewrite (all_returned _ E), collect_returned.
  - destruct (nth_error cs i) as [ci|] eqn:N; [|discriminate].
    destruct (raised ci) as [e|] eqn:R; [|discriminate].
    injection H as _ <-. simpl.
    apply raised_result in R. subst ci.
    assert (S : to_opt (collect (map (fun c0 : CO PV => result w3call c0) cs)) = None).
    { rewrite collect_to_opt. apply sequence_opt_nth_None with (i := i).
      rewrite map_map, nth_error_map, N. reflexivity. }
    destruct (collect _); [reflexivity | discriminate].
  - destruct (nth_error cs i) as [ci|] eqn:N; [|discriminate].
    destruct (step_at w3call p ci) as [[ev' ci']|] eqn:S; [|discriminate].
    injection H as _ <-. simpl.
    pose proof (@collect_update cs i ci ci' N (IH _ _ _ _ S)) as C.
    destruct (collect (map _ (list_update i ci' cs))) as [e1|v1],
             (collect (map _ cs)) as [e2|v2]; simpl in C; try discriminate; auto.
    now injection C as ->.
Qed.

Lemma exec_value (sched : list pick) :
  forall (A : Type) (c c' : CO A) (log : list (event W3Contract)),
    exec w3call sched c = Some (log, c') ->
    to_opt (result w3call c') = to_opt (result w3call c).
Proof.
  induction sched as [|p sched IH]; intros A c c' log H; simpl in H.
  - now injection H as _ <-.
  - destruct (step_at w3call p c) as [[ev c1]|] eqn:S; [|discriminate].
    destruct (exec w3call sched c1) as [[log1 c2]|] eqn:X; [|discriminate].
    injection H as _ <-.
    rewrite (IH _ _ _ _ X). exact (step_at_value _ _ S).
Qed.

Lemma terminal_result (A : Type) (c : CO A) (o : exn + A) :
  terminal c = Some o -> result w3call c = o /\ events w3call c = [].
Proof.
  destruct c; simpl; intros H; try discriminate; now injection H as <-.
Qed.

(** ** Steps permute the log of a coroutine that returns *)

Lemma concat_events_update (cs : list (CO PV)) (i : nat) (ci ci' : CO PV)
      (ev : list (event W3Contract)) :
  nth_error cs i = Some ci ->
  Permutation (events w3call ci) (ev ++ events w3call ci') ->
  Permutation (List.concat (map (fun c0 => events w3call c0) cs))
              (ev ++ List.concat (map (fun c0 => events w3call c0) (list_update i ci' cs))).
Proof.
  revert i; induction cs as [|c cs IH]; intros [|i] N Hp; simpl in *;
    try discriminate.
  - injection N as ->. rewrite app_assoc. now apply Permutation_app_tail.
  - specialize (IH i N Hp).
    rewrite (Permutation_app_head _ IH).
    rewrite !app_assoc. apply Permutation_app_tail, Permutation_app_comm.
Qed.

Lemma sequence_opt_nth (T : Type) (l : list (option T)) (xs : list T) (i : nat) (o : option T) :
  sequence_opt l = Some xs -> nth_error l i = Some o -> o <> None.
Proof.
  intros S N E. subst o. now rewrite (sequence_opt_nth_None _ _ N) in S.
Qed.

Lemma step_at_events (p : pick) :
  forall (A : Type) (c c' : CO A) (ev : list (event W3Contract)),
    step_at w3call p c = Some (ev, c') ->
    to_opt (result w3call c) <> None ->
    Permutation (events w3call c) (ev ++ events w3call c').
Proof.
  induction p as [| i | i p IH]; intros A c c' ev H V; destruct c; simpl in H;
    try discriminate.
  - injection H as <- <-. reflexivity.
  - injection H as <- <-. reflexivity.
  - destruct (sequence_opt _) as [vs|] eqn:E; [|discriminate].
    injection H as <- <-. simpl.
    now rewrite (all_returned _ E), collect_returned, events_returned.
  - exfalso. apply V.
    destruct (nth_error cs i) as [ci|] eqn:N; [|discriminate].
    destruct (raised ci) as [e|] eqn:R; [|discriminate].
    apply raised_result in R. subst ci. simpl.
    assert (S : to_opt (collect (map (fun c0 : CO PV => result w3call c0) cs)) = None).
    { rewrite collect_to_opt. apply sequence_opt_nth_None with (i := i).
      rewrite map_map, nth_error_map, N. reflexivity. }
    destruct (collect _); [reflexivity | discriminate].
  - destruct (nth_error cs i) as [ci|] eqn:N; [|discriminate].
    destruct (step_at w3call p ci) as [[ev' ci']|] eqn:S; [|discriminate].
    injection H as <- <-.
    simpl in V |- *.
    destruct (collect (map (fun c0 => result w3call c0) cs)) as [e|vs] eqn:C;
      [now elim V|].
    assert (Vi : to_opt (result w3call ci) <> None).
    { apply sequence_opt_nth with
        (l := map (@to_opt exn PV) (map (fun c0 : CO PV => result w3call c0) cs))
        (xs := vs) (i := i).
      - rewrite <- collect_to_opt, C. reflexivity.
      - rewrite !nth_error_map, N. reflexivity. }
    assert (C' : collect (map (fun c0 : CO PV => result w3call c0) (list_update i ci' cs)) = inr vs).
    { pose proof (@collect_update cs i ci ci' N (step_at_value _ _ S)) as Q.
      rewrite C in Q.
      destruct (collect (map _ (list_update i ci' cs))); simpl in Q;
        [discriminate | now injection Q as ->]. }
    rewrite C'.
    rewrite (Permutation_app_tail _ (@concat_events_update cs i ci ci' ev' N (IH _ _ _ _ S Vi))).
    now rewrite app_assoc.
Qed.

Lemma exec_events (sched : list pick) :
  forall (A : Type) (c c' : CO A) (log : list (event W3Contract)),
    exec w3call sched c = Some (log, c') ->
    to_opt (result w3call c) <> None ->
    Permutation (events w3call c) (log ++ events w3call c').
Proof.
  induction sched as [|p sched IH]; intros A c c' log H V; simpl in H.
  - injection H as <- <-. reflexivity.
  - destruct (step_at w3call p c) as [[ev c1]|] eqn:S; [|discriminate].
    destruct (exec w3call sched c1) as [[log1 c2]|] eqn:X; [|discriminate].
    injection H as <- <-.
    rewrite (step_at_events _ _ S V).
    rewrite <- app_assoc. apply Permutation_app_head.
    apply (IH _ _ _ _ X). now rewrite (step_at_value _ _ S).
Qed.

(** ** Every run is finite *)

Lemma list_sum_update (cs : list (CO PV)) (i : nat) (ci ci' : CO PV) :
  nth_error cs i = Some ci ->
  (size w3call ci' < size w3call ci)%nat ->
  (list_sum (map (fun c0 => size w3call c0) (list_update i ci' cs))
   < list_sum (map (fun c0 => size w3call c0) cs))%nat.
Proof.
  revert i; induction cs as [|c cs IH]; intros [|i] N H; simpl in *;
    try discriminate.
  - injection N as ->. lia.
  - specialize (IH i N H). lia.
Qed.

Lemma step_at_size (p : pick) :
  forall (A : Type) (c c' : CO A) (ev : list (event W3Contract)),
    step_at w3call p c = Some (ev, c') ->
    (size w3call c' < size w3call c)%nat.
Proof.
  induction p as [| i | i p IH]; intros A c c' ev H; destruct c; simpl in H;
    try discriminate.
  - injection H as _ <-. simpl. lia.
  - injection H as _ <-. simpl. lia.
  - destruct (sequence_opt _) as [vs|] eqn:E; [|discriminate].
    injection H as _ <-. simpl.
    rewrite (all_returned _ E), collect_returned. lia.
  - destruct (nth_error cs i) as [ci|]; [|discriminate].
    destruct (raised ci); [|discriminate].
    injection H as _ <-. simpl. lia.
  - destruct (nth_error cs i) as [ci|] eqn:N; [|discriminate].
    destruct (step_at w3call p ci) as [[ev' ci']|] eqn:S; [|discriminate].
    injection H as _ <-.
    pose proof (@list_sum_update cs i ci ci' N (IH _ _ _ _ S)) as Hs.
    pose proof (@collect_update cs i ci ci' N (step_at_value _ _ S)) as V.
    simpl.
    destruct (collect (map _ (list_update i ci' cs))) as [e1|v1],
             (collect (map _ cs)) as [e2|v2]; simpl in V; try discriminate; try lia.
    injection V as ->. lia.
Qed.

Lemma exec_length (sched : list pick) :
  forall (A : Type) (c c' : CO A) (log : list (event W3Contract)),
    exec w3call sched c = Some (log, c') ->
    (List.length sched + size w3call c' <= size w3call c)%nat.
Proof.
  induction sched as [|p sched IH]; intros A c c' log H; simpl in H.
  - injection H as _ <-. simpl. lia.
  - destruct (step_at w3call p c) as [[ev c1]|] eqn:S; [|discriminate].
    destruct (exec w3call sched c1) as [[log1 c2]|] eqn:X; [|discriminate].
    injection H as _ <-.
    pose proof (IH _ _ _ _ X). pose proof (step_at_size _ _ S). simpl. lia.
Qed.

(** ** The left-to-right schedule is a complete run *)

Lemma exec_app (s1 s2 : list pick) :
  forall (A : Type) (c c1 c2 : CO A) (l1 l2 : list (event W3Contract)),
    exec w3call s1 c = Some (l1, c1) ->
    exec w3call s2 c1 = Some (l2, c2) ->
    exec w3call (s1 ++ s2) c = Some (l1 ++ l2, c2).
Proof.
  induction s1 as [|p s1 IH]; intros A c c1 c2 l1 l2 H1 H2; simpl in *.
  - now injection H1 as <- <-.
  - destruct (step_at w3call p c) as [[ev c']|]; [|discriminate].
    destruct (exec w3call s1 c') as [[l c'']|] eqn:X; [|discriminate].
    injection H1 as <- <-.
    rewrite (IH _ _ _ _ _ _ X H2). now rewrite app_assoc.
Qed.

Lemma exec_inside (s : list pick) :
  forall (A : Type) (cs : list (CO PV)) (k : list PV -> CO A) (i : nat)
         (ci ci' : CO PV) (log : list (event W3Contract)),
    nth_error cs i = Some ci ->
    exec w3call s ci = Some (log, ci') ->
    exec w3call (map (Inside i) s) (Gather cs k)
    = Some (log, Gather (list_update i ci' cs) k).
Proof.
  induction s as [|p s IH]; intros A cs k i ci ci' log N H; simpl in *.
  - injection H as <- <-. do 3 f_equal.
    revert i N; clear; induction cs as [|c cs IH]; intros [|i] N; simpl in *;
      try discriminate.
    + now injection N as ->.
    + now rewrite <- (IH i N).
  - rewrite N.
    destruct (step_at w3call p ci) as [[ev c1]|]; [|discriminate].
    destruct (exec w3call s c1) as [[l c2]|] eqn:X; [|discriminate].
    injection H as <- <-.
    rewrite (IH A (list_update i c1 cs) k i c1 c2 l
               (nth_error_list_update_eq _ _ _ N) X).
    now rewrite list_update_twice.
Qed.

Lemma exec_children (A : Type) (k : list PV -> CO A) (cs : list (CO PV)) :
  Forall (fun c0 : CO PV =>
            exec w3call (schedule w3call c0) c0
            = Some (events w3call c0, finish (result w3call c0))) cs ->
  forall pre : list (CO PV),
    exec w3call (inside_all (List.length pre) (map (fun c0 => schedule w3call c0) cs))
         (Gather (pre ++ cs) k)
    = Some (List.concat (map (fun c0 => events w3call c0) cs),
            Gather (pre ++ map (fun c0 => finish (result w3call c0)) cs) k).
Proof.
  induction 1 as [|c cs Hc _ IH]; intros pre; simpl.
  - reflexivity.
  - apply exec_app with (c1 := Gather (pre ++ finish (result w3call c) :: cs) k).
    + rewrite <- (list_update_middle pre cs (finish (result w3call c)) c).
      apply exec_inside with (ci := c); auto.
      rewrite nth_error_app2, Nat.sub_diag; auto.
    + specialize (IH (pre ++ [finish (result w3call c)])).
      rewrite length_app, Nat.add_comm in IH. simpl in IH.
      now rewrite <- !app_assoc in IH.
Qed.

Lemma finished_values (l : list (CO PV)) (vs : list PV) :
  collect (map (fun c0 => result w3call c0) l) = inr vs ->
  sequence_opt (map (fun c0 : CO PV => ret_value c0)
                    (map (fun c0 => finish (result w3call c0)) l)) = Some vs.
Proof.
  revert vs; induction l as [|c l IH]; simpl; intros vs H.
  - now injection H as <-.
  - destruct (result w3call c) as [e|v]; [discriminate|].
    destruct (collect _) as [e|vs']; [discriminate|].
    injection H as <-. simpl. now rewrite (IH vs' eq_refl).
Qed.

Lemma exec_schedule (A : Type) (c : CO A) :
  exec w3call (schedule w3call c) c
  = Some (events w3call c, finish (result w3call c)).
Proof.
  pattern A, c. apply coro_induction; clear A c; simpl; intros; auto.
  - now rewrite H.
  - now rewrite H.
  - pose proof (exec_children k H nil) as X. simpl in X.
    destruct (collect (map (fun c0 => result w3call c0) cs)) as [e|vs] eqn:C.
    + apply exec_app with (1 := X). simpl.
      apply collect_first_error in C.
      rewrite nth_error_map in C |- *.
      destruct (nth_error cs _) as [ci|]; [|discriminate].
      simpl in C |- *. injection C as ->. reflexivity.
    + apply exec_app with (1 := X). simpl.
      rewrite (finished_values _ C). now rewrite H0.
Qed.

(** No run is stuck: whatever has been scheduled so far, the run can be
    continued to a complete one. *)
Lemma exec_completes (A : Type) (sched : list pick) (c c' : CO A)
      (log : list (event W3Contract)) :
  exec w3call sched c = Some (log, c') ->
  exec w3call (sched ++ schedule w3call c') c
  = Some (log ++ events w3call c', finish (result w3call c')).
Proof.
  intros H. apply exec_app with (1 := H). apply exec_schedule.
Qed.

Lemma finish_terminal (A : Type) (o : exn + A) :
  terminal (finish o : CO A) = Some o.
Proof. now destruct o. Qed.

Lemma run_schedule (A : Type) (c : CO A) :
  run w3call (schedule w3call c) c = Some (events w3call c, result w3call c).
Proof.
  unfold run. now rewrite exec_schedule, finish_terminal.
Qed.

(** ** Every complete run agrees with the reference evaluation *)

Lemma run_returns (A : Type) (c : CO A) (v : A) sched log o :
  result w3call c = inr v ->
  run w3call sched c = Some (log, o) ->
  o = inr v /\ Permutation (events w3call c) log.
Proof.
  unfold run. intros R H.
  destruct (exec w3call sched c) as [[l c']|] eqn:X; [|discriminate].
  destruct (terminal c') as [o'|] eqn:T; [|discriminate].
  injection H as <- <-.
  destruct (terminal_result _ T) as [Ro Ev].
  pose proof (exec_value _ _ X) as V. rewrite Ro, R in V.
  split.
  - destruct o'; simpl in V; [discriminate | now injection V as ->].
  - pose proof (exec_events _ _ X) as P. rewrite R, Ev, app_nil_r in P.
    apply P. discriminate.
Qed.

Lemma run_raises (A : Type) (c : CO A) (e : exn) sched log o :
  result w3call c = inl e ->
  run w3call sched c = Some (log, o) ->
  exists e', o = inl e'.
Proof.
  unfold run. intros R H.
  destruct (exec w3call sched c) as [[l c']|] eqn:X; [|discriminate].
  destruct (terminal c') as [o'|] eqn:T; [|discriminate].
  injection H as <- <-.
  destruct (terminal_result _ T) as [Ro _].
  pose proof (exec_value _ _ X) as V. rewrite Ro, R in V.
  destruct o' as [e'|a]; [now exists e' | discriminate].
Qed.

Lemma always_returns (A : Type) (c : CO A) (v : A) :
  result w3call c = inr v ->
  always w3call c (fun log o => o = inr v /\ Permutation (events w3call c) log).
Proof.
  intros R. split.
  - exists (schedule w3call c), (events w3call c), (result w3call c).
    apply run_schedule.
  - intros sched log o H. eapply run_returns; eauto.
Qed.

Lemma always_raises (A : Type) (c : CO A) (e : exn) :
  result w3call c = inl e ->
  always w3call c (fun _ o => exists e', o = inl e').
Proof.
  intros R. split.
  - exists (schedule w3call c), (events w3call c), (result w3call c).
    apply run_schedule.
  - intros sched log o H. eapply run_raises; eauto.
Qed.

Lemma always_weaken (A : Type) (c : CO A) (P Q : list (event W3Contract) -> exn + A -> Prop) :
  always w3call c P -> (forall log o, P log o -> Q log o) -> always w3call c Q.
Proof.
  intros [E H] W. split; auto. intros sched log o R. apply W. eauto.
Qed.

(** The evaluation of line 43 logs its call unless the name was absent;
    an outcome the proxy recovers from is never that KeyError. *)

Lemma sent_not_absent ct fn (a : list PV) :
  absent fn (w3call ct fn a) = false -> sent w3call ct fn a = [EvCall ct fn a].
Proof. unfold sent. now intros ->. Qed.

Lemma recoverable_not_absent fn (o : exn + PV) :
  recoverable o = true -> absent fn o = false.
Proof. destruct o as [[]|]; simpl; auto; discriminate. Qed.

Lemma sent_recoverable ct fn (a : list PV) :
  recoverable (w3call ct fn a) = true -> sent w3call ct fn a = [EvCall ct fn a].
Proof. intros R. now apply sent_not_absent, recoverable_not_absent. Qed.

Lemma proxied_recoverable (o : exn + PV) (v : PV) :
  proxied o = inr v -> recoverable o = true.
Proof.
  destruct o as [e|]; simpl; auto. destruct (is_Web3Exception e); auto; discriminate.
Qed.

(** A run of a coroutine that starts with a remote call starts with that
    call; a coroutine that has returned or raised takes no step. *)

Lemma run_Call (A : Type) ct fn a (k : exn + PV -> CO A) sched log o :
  run w3call sched (Call ct fn a k) = Some (log, o) ->
  exists sched' log',
    sched = Fire :: sched' /\ log = sent w3call ct fn a ++ log' /\
    run w3call sched' (k (w3call ct fn a)) = Some (log', o).
Proof.
  unfold run. destruct sched as [|p sched]; simpl; [discriminate|].
  destruct p; simpl; try discriminate.
  destruct (exec w3call sched (k (w3call ct fn a))) as [[l c']|] eqn:X;
    [|discriminate].
  intros H. exists sched, l.
  destruct (terminal c') eqn:T; [|discriminate]. injection H as <- <-.
  rewrite X, T. repeat split; reflexivity.
Qed.

Lemma run_terminal (A : Type) (c : CO A) (o o' : exn + A) sched log :
  terminal c = Some o ->
  run w3call sched c = Some (log, o') ->
  sched = [] /\ log = [] /\ o' = o.
Proof.
  unfold run. intros T. destruct sched as [|p sched]; simpl.
  - rewrite T. intros H. now injection H as <- <-.
  - destruct c; simpl in T; try discriminate; destruct p; discriminate.
Qed.

Lemma Permutation_printed (l l' : list (event W3Contract)) :
  Permutation l l' -> Permutation (printed l) (printed l').
Proof.
  induction 1 as [| x l l' _ IH | x y l | l l' l'' _ IH1 _ IH2]; simpl.
  - constructor.
  - destruct x; auto.
  - destruct x, y; auto. apply perm_swap.
  - now rewrite IH1.
Qed.

Lemma printed_app (l l' : list (event W3Contract)) :
  printed (l ++ l') = printed l ++ printed l'.
Proof.
  induction l as [|[c fn a|s] l IH]; simpl; auto. now rewrite IH.
Qed.

(** ** RemoteCallProxy *)

Lemma always_call_returned (self : ETHContractFunctions W3Contract) fn a (v : PV) :
  result w3call (__call__ self fn a) = inr v ->
  always w3call (__call__ self fn a)
         (fun log o => o = inr v /\ log = [EvCall (contract self) fn a]).
Proof.
  intros R.
  assert (Rc : recoverable (w3call (contract self) fn a) = true).
  { simpl in R. destruct (w3call _ _ _) as [e|]; simpl in *; auto.
    destruct (is_Web3Exception e); auto. discriminate. }
  apply always_weaken with (1 := always_returns _ R).
  intros log o [-> P]. split; auto.
  unfold __call__ in P. cbn [events] in P.
  rewrite (sent_recoverable _ _ _ Rc) in P. cbn [app] in P.
  assert (E : events w3call
                (match w3call (contract self) fn a with
                 | inl e => if is_Web3Exception e then Ret (VStr "NotFound") else Raise e
                 | inr v0 => Ret v0
                 end : CO PV) = []).
  { destruct (w3call _ _ _) as [e|v0]; [destruct (is_Web3Exception e)|]; reflexivity. }
  rewrite E in P. now apply Permutation_length_1_inv.
Qed.

(** C2. A proxy invocation whose underlying call succeeds returns the
    decoded value unchanged; one whose underlying call fails with a
    Web3Exception returns the string "NotFound" and does not raise.  In
    both cases exactly the one remote call is made, under every schedule. *)
Theorem proxy_returns_value_or_sentinel
        (self : ETHContractFunctions W3Contract) (function_name : string) (a : list PV) :
  (forall v, w3call (contract self) function_name a = inr v ->
     always w3call (__call__ self function_name a)
            (fun log o => o = inr v /\ log = [EvCall (contract self) function_name a])) /\
  (forall e, w3call (contract self) function_name a = inl e ->
     is_Web3Exception e = true ->
     always w3call (__call__ self function_name a)
            (fun log o => o = inr (VStr "NotFound") /\
                          log = [EvCall (contract self) function_name a])).
Proof.
  split.
  - intros v H. apply always_call_returned. simpl. now rewrite H.
  - intros e H W. apply always_call_returned. simpl. now rewrite H, W.
Qed.

(** ** Configuration error *)

(** C6. A single-pair fetch given neither a factory proxy nor a factory
    address raises the ValueError of line 149 (the ConfigurationError of
    the specification): it is raised before anything else happens, so
    every run ends in that error with an empty log, zero remote calls. *)
Theorem missing_factory_raises_before_any_call (uint : PV) :
  async_get_pair_by_index eth_contract VNone uint VNone = Raise configuration_error /\
  async_get_pair_by_index_func eth_contract [] [] = Raise configuration_error /\
  always w3call (async_get_pair_by_index eth_contract VNone uint VNone)
         (fun log o => o = inl configuration_error /\ calls log = [] /\ log = []).
Proof.
  split; [reflexivity|]. split; [reflexivity|]. split.
  - exists [], [], (inl configuration_error). reflexivity.
  - intros sched log o H.
    destruct (@run_terminal _ (async_get_pair_by_index eth_contract VNone uint VNone)
                (inl configuration_error) o sched log eq_refl H) as (_ & -> & ->).
    auto.
Qed.

(** ** BatchExecutor *)

Lemma make_tasks_queued (ts : list (task W3Contract)) :
  make_tasks (map (fun t : task W3Contract => fst (fst t)) ts)
             (map (fun t : task W3Contract => snd (fst t)) ts)
             (map (fun t : task W3Contract => snd t) ts)
  = inr (map (@apply_task W3Contract) ts).
Proof.
  induction ts as [|[[f a] k] ts IH]; simpl; auto. now rewrite IH.
Qed.

Lemma queued_exists (self : AsyncBatchProcessor W3Contract) :
  List.length (args self) = List.length (func self) ->
  List.length (kwargs self) = List.length (func self) ->
  exists ts, queued self ts.
Proof.
  destruct self as [L fs az kz]. unfold queued. simpl.
  revert az kz; induction fs as [|f fs IH]; intros [|a az] [|k kz] Ha Hk;
    simpl in *; try discriminate.
  - exists []. auto.
  - destruct (IH az kz) as (ts & -> & -> & ->); try lia.
    exists ((f, a, k) :: ts). auto.
Qed.

Lemma queued_length (self : AsyncBatchProcessor W3Contract) ts :
  queued self ts -> List.length (func self) = List.length ts.
Proof. intros (-> & _). apply length_map. Qed.

Lemma queued_append (self : AsyncBatchProcessor W3Contract) ts f a k :
  queued self ts -> queued (append_task self f a k) (ts ++ [(f, a, k)]).
Proof.
  intros (Hf & Ha & Hk). unfold queued, append_task. simpl.
  rewrite !map_app, Hf, Ha, Hk. auto.
Qed.

Lemma process_tasks_queued (self : AsyncBatchProcessor W3Contract) ts :
  queued self ts -> ts <> [] ->
  process_tasks self
  = (AsyncBatchProcessor_init (limit self),
     Gather (map (@apply_task W3Contract) ts) (fun vs => Ret (VList vs))).
Proof.
  intros (Hf & Ha & Hk) N. unfold process_tasks.
  rewrite Ha, Hk, Hf, make_tasks_queued.
  destruct ts as [|t ts]; [contradiction|]. reflexivity.
Qed.

Lemma process_tasks_empty (self : AsyncBatchProcessor W3Contract) :
  func self = [] -> process_tasks self = (self, Ret VNone).
Proof. unfold process_tasks. now intros ->. Qed.

(** C7, amended.  A flush of an empty pending queue starts no task and
    leaves the processor as it was, and what it returns is None: the bare
    [return] of line 25, not an empty sequence. *)
Theorem flush_of_empty_queue_returns_None (self : AsyncBatchProcessor W3Contract) :
  func self = [] ->
  fst (process_tasks self) = self /\
  always w3call (snd (process_tasks self))
         (fun log o => o = inr VNone /\ log = []).
Proof.
  intros E. rewrite (process_tasks_empty _ E). simpl. split; auto. split.
  - exists [], [], (inr VNone). reflexivity.
  - intros sched log o H.
    destruct (@run_terminal _ (Ret VNone : CO PV) (inr VNone) o sched log eq_refl H)
      as (_ & -> & ->).
    auto.
Qed.

Lemma add_task_below (self : AsyncBatchProcessor W3Contract) f a k :
  Z.of_nat (List.length (func (append_task self f a k))) < limit self ->
  add_task self f a k = (append_task self f a k, Ret VNone).
Proof.
  intros H. unfold add_task.
  destruct (Z.geb_spec (Z.of_nat (List.length (func (append_task self f a k))))
                       (limit (append_task self f a k))) as [G|G]; auto.
  change (limit (append_task self f a k)) with (limit self) in G. lia.
Qed.

Lemma add_task_reached (self : AsyncBatchProcessor W3Contract) f a k :
  limit self <= Z.of_nat (List.length (func (append_task self f a k))) ->
  add_task self f a k = process_tasks (append_task self f a k).
Proof.
  intros H. unfold add_task.
  destruct (Z.geb_spec (Z.of_nat (List.length (func (append_task self f a k))))
                       (limit (append_task self f a k))) as [G|G]; auto.
  change (limit (append_task self f a k)) with (limit self) in G. lia.
Qed.

Lemma reachable_invariant (L : Z) (self : AsyncBatchProcessor W3Contract) :
  0 < L -> reachable L self ->
  limit self = L /\
  List.length (args self) = List.length (func self) /\
  List.length (kwargs self) = List.length (func self) /\
  Z.of_nat (List.length (func self)) < L.
Proof.
  intros HL R. induction R as [| self f a k R IH | self R IH].
  - simpl. repeat split; auto.
  - destruct IH as (Hl & Ha & Hk & Hq).
    destruct (queued_exists self Ha Hk) as [ts Q].
    pose proof (queued_append f a k Q) as Q1.
    pose proof (queued_length Q1) as N1. rewrite length_app in N1. simpl in N1.
    destruct (Z_lt_le_dec (Z.of_nat (List.length (func (append_task self f a k)))) (limit self))
      as [B|B].
    + rewrite (add_task_below _ _ _ _ B). simpl.
      rewrite !length_app. simpl. repeat split; try lia.
      simpl in B. rewrite length_app in B. simpl in B. lia.
    + rewrite (add_task_reached _ _ _ _ B).
      rewrite (process_tasks_queued Q1); [|now destruct ts].
      simpl. repeat split; auto.
  - destruct IH as (Hl & Ha & Hk & Hq).
    destruct (queued_exists self Ha Hk) as [ts Q].
    destruct ts as [|t ts].
    + rewrite process_tasks_empty; [now repeat split|]. apply Q.
    + rewrite (process_tasks_queued Q); [|discriminate].
      simpl. repeat split; auto.
Qed.

(** C9. On a processor with positive limit L used only through its
    methods, the pending queue is shorter than L between calls and at most
    L right after the append of a submit.  When the append makes it reach
    L the submit is the flush of that queue: it empties the queue and
    awaits the gather of exactly those L tasks, returning their list of
    results.  A submit that stays below L returns None and keeps the task. *)
Theorem queue_never_exceeds_limit
        (L : Z) (self : AsyncBatchProcessor W3Contract) (f : pyfunc W3Contract)
        (a : list PV) (k : list (string * PV)) :
  0 < L -> reachable L self ->
  let self1 := append_task self f a k in
  Z.of_nat (List.length (func self)) < L /\
  Z.of_nat (List.length (func self1)) <= L /\
  (Z.of_nat (List.length (func self1)) = L ->
   add_task self f a k = process_tasks self1 /\
   func (fst (add_task self f a k)) = [] /\
   exists ts, queued self1 ts /\ Z.of_nat (List.length ts) = L /\
              snd (add_task self f a k)
              = Gather (map (@apply_task W3Contract) ts) (fun vs => Ret (VList vs))) /\
  (Z.of_nat (List.length (func self1)) < L ->
   add_task self f a k = (self1, Ret VNone)).
Proof.
  intros HL R self1.
  destruct (reachable_invariant HL R) as (Hl & Ha & Hk & Hq).
  destruct (queued_exists self Ha Hk) as [ts Q].
  pose proof (queued_append f a k Q) as Q1. fold self1 in Q1.
  pose proof (queued_length Q1) as N1.
  assert (N : List.length (func self1) = S (List.length (func self))).
  { unfold self1. simpl. rewrite length_app. simpl. lia. }
  split; [exact Hq|]. split; [lia|]. split.
  - intros E.
    assert (B : limit self <= Z.of_nat (List.length (func (append_task self f a k))))
      by (fold self1; lia).
    rewrite (add_task_reached _ _ _ _ B). fold self1.
    rewrite (process_tasks_queued Q1); [|now destruct ts].
    simpl. repeat split; auto.
    exists (ts ++ [(f, a, k)]). repeat split; try apply Q1. lia.
  - intros B. apply add_task_below. fold self1. lia.
Qed.

(** ** Counting flushes *)

Lemma flush_sizes_flat_map (cs : list (CO PV)) :
  flush_sizes cs
  = flat_map (fun o : option nat => match o with Some n => [n] | None => [] end)
             (map (fun c => flush_size c) cs).
Proof.
  induction cs as [|c cs IH]; simpl; auto.
  rewrite IH. now destruct (flush_size c).
Qed.

Lemma flush_sizes_app (cs cs' : list (CO PV)) :
  flush_sizes (cs ++ cs') = flush_sizes cs ++ flush_sizes cs'.
Proof.
  induction cs as [|c cs IH]; simpl; auto.
  rewrite IH. now destruct (flush_size c).
Qed.

Lemma div_succ (K L : nat) :
  (1 <= L)%nat ->
  (S K / L = K / L + (if (S K mod L =? 0)%nat then 1 else 0))%nat.
Proof.
  intros HL.
  pose proof (Nat.div_mod_eq K L) as D.
  pose proof (Nat.mod_upper_bound K L ltac:(lia)) as U.
  destruct (Nat.eq_dec (S (K mod L)) L) as [E|E].
  - assert (Q : (S K / L = K / L + 1)%nat).
    { symmetry. apply Nat.div_unique with (r := O); nia. }
    assert (M : (S K mod L = 0)%nat).
    { symmetry. apply Nat.mod_unique with (q := (K / L + 1)%nat); nia. }
    now rewrite M, Q.
  - assert (Q : (S K / L = K / L)%nat).
    { symmetry. apply Nat.div_unique with (r := S (K mod L)); nia. }
    assert (M : (S K mod L = S (K mod L))%nat).
    { symmetry. apply Nat.mod_unique with (q := (K / L)%nat); nia. }
    rewrite M, Q. simpl. lia.
Qed.

Lemma ceiling_div (K L : nat) :
  (1 <= L)%nat ->
  ((K + L - 1) / L = K / L + (if (K mod L =? 0)%nat then 0 else 1))%nat.
Proof.
  intros HL.
  pose proof (Nat.div_mod_eq K L) as D.
  pose proof (Nat.mod_upper_bound K L ltac:(lia)) as U.
  destruct (Nat.eqb_spec (K mod L) 0) as [E|E].
  - symmetry. apply Nat.div_unique with (r := (L - 1)%nat); nia.
  - symmetry. apply Nat.div_unique with (r := (K mod L - 1)%nat); nia.
Qed.

Lemma multiples_below (K L : nat) :
  (1 <= L)%nat ->
  flat_map (fun o : option nat => match o with Some n => [n] | None => [] end)
           (map (fun j => if ((j + 1) mod L =? 0)%nat then Some L else None) (seq 0 K))
  = repeat L (K / L).
Proof.
  intros HL. induction K as [|K IH].
  - simpl. now rewrite Nat.Div0.div_0_l.
  - rewrite seq_S, map_app, flat_map_app, IH. simpl.
    rewrite (div_succ K HL), Nat.add_1_r.
    destruct (S K mod L =? 0)%nat.
    + rewrite repeat_app. reflexivity.
    + now rewrite Nat.add_0_r, app_nil_r.
Qed.

Lemma submit_all_spec (L : nat) (ts : list (task W3Contract)) :
  (1 <= L)%nat ->
  forall (self : AsyncBatchProcessor W3Contract) (pend : list (task W3Contract)),
    queued self pend -> (List.length pend < L)%nat -> limit self = Z.of_nat L ->
    (exists pend', queued (fst (submit_all self ts)) pend' /\
                   List.length pend' = ((List.length pend + List.length ts) mod L)%nat) /\
    limit (fst (submit_all self ts)) = Z.of_nat L /\
    map (fun c => flush_size c) (snd (submit_all self ts))
    = map (fun j => if ((List.length pend + j + 1) mod L =? 0)%nat then Some L else None)
          (seq 0 (List.length ts)).
Proof.
  intros HL. induction ts as [|[[f a] k] ts IH]; intros self pend Q B Hl.
  - simpl. repeat split; auto. exists pend. split; auto.
    now rewrite Nat.add_0_r, Nat.mod_small.
  - simpl.
    pose proof (queued_append f a k Q) as Q1.
    pose proof (queued_length Q1) as N1. rewrite length_app in N1.
    change (List.length [(f, a, k)]) with 1%nat in N1.
    destruct (Nat.eq_dec (List.length pend + 1) L) as [E|E].
    + rewrite add_task_reached by lia.
      rewrite (process_tasks_queued Q1); [|now destruct pend].
      destruct (IH (AsyncBatchProcessor_init (limit (append_task self f a k))) [])
        as ((pend' & Q' & N') & Hl' & M); [now repeat split | simpl; lia | exact Hl |].
      simpl in N', M.
      destruct (submit_all _ ts) as [self2 others]. simpl in *.
      repeat split; auto.
      * exists pend'. split; auto. rewrite N'.
        replace (List.length pend + S (List.length ts))%nat
          with (List.length ts + 1 * L)%nat by lia.
        now rewrite Nat.Div0.mod_add.
      * rewrite length_map, length_app. simpl.
        rewrite Nat.add_0_r, E, Nat.Div0.mod_same. simpl.
        apply f_equal2; [f_equal; lia|].
        rewrite M, <- seq_shift, map_map. apply map_ext. intros j.
        replace (List.length pend + S j + 1)%nat with (j + 1 + 1 * L)%nat by lia.
        now rewrite Nat.Div0.mod_add.
    + rewrite add_task_below by lia.
      destruct (IH (append_task self f a k) (pend ++ [(f, a, k)]))
        as ((pend' & Q' & N') & Hl' & M); [exact Q1 | rewrite length_app; simpl; lia | exact Hl |].
      rewrite length_app in N', M. simpl in N', M.
      destruct (submit_all _ ts) as [self2 others]. simpl in *.
      repeat split; auto.
      * exists pend'. split; auto. rewrite N'. f_equal. lia.
      * rewrite Nat.add_0_r, Nat.mod_small by lia.
        destruct (Nat.eqb_spec (List.length pend + 1) 0); [lia|].
        apply f_equal2; [reflexivity|].
        rewrite M, <- seq_shift, map_map. apply map_ext. intros j.
        now replace (List.length pend + 1 + j + 1)%nat
          with (List.length pend + S j + 1)%nat by lia.
Qed.

(** C4. K tasks submitted one at a time to a fresh processor of limit
    L >= 1, then the final explicit flush: submit number j runs a batch
    exactly when j is a multiple of L, and that batch has L tasks, so the
    automatic flushes are K / L batches of L; the final flush runs the
    K mod L tasks that remain, or nothing when none remains; in all
    ceil(K / L) batches are run. *)
Theorem flushes_of_K_submissions (L : nat) (ts : list (task W3Contract)) :
  (1 <= L)%nat ->
  let K := List.length ts in
  let awaited := fst (submit_then_flush (Z.of_nat L) ts) in
  let final := snd (submit_then_flush (Z.of_nat L) ts) in
  map (fun c => flush_size c) awaited
  = map (fun j => if ((j + 1) mod L =? 0)%nat then Some L else None) (seq 0 K) /\
  flush_sizes awaited = repeat L (K / L) /\
  flush_size final = (if (K mod L =? 0)%nat then None else Some (K mod L)%nat) /\
  List.length (flush_sizes (awaited ++ [final])) = ((K + L - 1) / L)%nat.
Proof.
  intros HL K awaited final. unfold awaited, final, submit_then_flush.
  destruct (@submit_all_spec L ts HL (AsyncBatchProcessor_init (Z.of_nat L)) [])
    as ((pend' & Q' & N') & Hl' & M); [now repeat split | simpl; lia | reflexivity |].
  simpl in N', M. fold K in N', M.
  destruct (submit_all _ ts) as [self1 cs]. simpl in *.
  assert (F : flush_sizes cs = repeat L (K / L)).
  { rewrite flush_sizes_flat_map, M. now apply multiples_below. }
  assert (G : flush_size (snd (process_tasks self1))
              = (if (K mod L =? 0)%nat then None else Some (K mod L)%nat)).
  { destruct pend' as [|t pend'].
    - rewrite process_tasks_empty by apply Q'. simpl in N'. now rewrite <- N'.
    - rewrite (process_tasks_queued Q') by discriminate.
      simpl in *. rewrite length_map, <- N'. reflexivity. }
  repeat split; auto.
  rewrite flush_sizes_app, length_app, F, repeat_length. simpl.
  rewrite G, (ceiling_div K HL).
  now destruct (K mod L =? 0)%nat.
Qed.

(** ** Order of the results of a flush *)

(** C3. A flush of a non-empty queue holding T1..Tn in submission order
    empties the queue and, whatever the interleaving of the tasks and so
    whichever of them completes first, returns the list
    [result(T1), ..., result(Tn)]. *)
Theorem flush_returns_results_in_submission_order
        (self : AsyncBatchProcessor W3Contract) (ts : list (task W3Contract))
        (vs : list PV) :
  queued self ts -> ts <> [] ->
  Forall2 (fun t v => result w3call (apply_task t) = inr v) ts vs ->
  fst (process_tasks self) = AsyncBatchProcessor_init (limit self) /\
  always w3call (snd (process_tasks self)) (fun _ o => o = inr (VList vs)).
Proof.
  intros Q N F. rewrite (process_tasks_queued Q N). simpl. split; auto.
  assert (R : result w3call (Gather (map (@apply_task W3Contract) ts)
                                    (fun vs0 => Ret (VList vs0)) : CO PV)
              = inr (VList vs)).
  { simpl. rewrite map_map.
    now rewrite (collect_Forall2 (fun t => result w3call (apply_task t)) F). }
  apply always_weaken with (1 := always_returns _ R). now intros log o [-> _].
Qed.

(** ** The pipeline, stage by stage *)

Lemma always_result (A : Type) (c : CO A) :
  always w3call c (fun _ o => to_opt o = to_opt (result w3call c)).
Proof.
  destruct (result w3call c) as [e|v] eqn:R.
  - apply always_weaken with (1 := always_raises _ R). now intros _ o [e' ->].
  - apply always_weaken with (1 := always_returns _ R). now intros _ o [-> _].
Qed.

Lemma result_call (self : ETHContractFunctions W3Contract) fn a :
  result w3call (__call__ self fn a) = proxied (w3call (contract self) fn a).
Proof.
  simpl. destruct (w3call _ _ _) as [e|v]; simpl; auto.
  now destruct (is_Web3Exception e).
Qed.

Lemma events_call (self : ETHContractFunctions W3Contract) fn a :
  events w3call (__call__ self fn a) = sent w3call (contract self) fn a.
Proof.
  cbn [__call__ events]. rewrite <- app_nil_r. f_equal.
  destruct (w3call _ _ _) as [e|v]; simpl; auto.
  now destruct (is_Web3Exception e).
Qed.


Lemma result_raise_or (T A : Type) (o : exn + T) (k : T -> CO A) :
  result w3call (raise_or o k)
  = match o with inl e => inl e | inr v => result w3call (k v) end.
Proof. now destruct o. Qed.

Lemma result_async_get_token_info (token_address : PV) :
  result w3call (async_get_token_info eth_contract token_address)
  = (c <-! eth_contract token_address token_abi ;; proxied (w3call c "name" [])).
Proof.
  unfold async_get_token_info.
  change (_get_abi "token") with (inr exn token_abi).
  unfold raise_or, ETHContractFunctions_init, __getattr__.
  destruct (eth_contract token_address token_abi) as [e|c]; auto.
  now rewrite result_call.
Qed.

Lemma result_async_get_pair_info (pair_address : PV) :
  result w3call (async_get_pair_info eth_contract pair_address)
  = (c <-! eth_contract pair_address pair_abi ;;
     v0 <-! proxied (w3call c "name" []) ;;
     v1 <-! proxied (w3call c "token0" []) ;;
     v2 <-! proxied (w3call c "token1" []) ;;
     inr (VDict [("pair_name", v0); ("token0", v1); ("token1", v2)])).
Proof.
  unfold async_get_pair_info.
  change (_get_abi "pair") with (inr exn pair_abi).
  unfold raise_or at 1 2, ETHContractFunctions_init, __getattr__.
  destruct (eth_contract pair_address pair_abi) as [e|c]; auto.
  cbn [result map collect]. rewrite !result_call. cbn [contract].
  destruct (proxied (w3call c "name" [])) as [e0|v0]; auto.
  destruct (proxied (w3call c "token0" [])) as [e1|v1]; auto.
  destruct (proxied (w3call c "token1" [])) as [e2|v2]; auto.
Qed.

Lemma result_async_get_pair_by_index
      (fc : ETHContractFunctions W3Contract) (uint factory_address : PV) :
  result w3call (async_get_pair_by_index eth_contract (VObj fc) uint factory_address)
  = (pa <-! proxied (w3call (contract fc) "allPairs" [uint]) ;;
     pc <-! eth_contract pa pair_abi ;;
     pn <-! proxied (w3call pc "name" []) ;;
     a0 <-! proxied (w3call pc "token0" []) ;;
     a1 <-! proxied (w3call pc "token1" []) ;;
     t0 <-! eth_contract a0 token_abi ;;
     n0 <-! proxied (w3call t0 "name" []) ;;
     t1 <-! eth_contract a1 token_abi ;;
     n1 <-! proxied (w3call t1 "name" []) ;;
     inr (PairRecord pa pn a0 n0 a1 n1)).
Proof.
  unfold async_get_pair_by_index.
  cbn [is_None andb truthy negb raise_or call_method __getattr__].
  rewrite result_bind, result_call.
  destruct (proxied (w3call (contract fc) "allPairs" [uint])) as [e|pa]; auto.
  rewrite result_bind, result_async_get_pair_info.
  destruct (eth_contract pa pair_abi) as [e|pc]; auto.
  destruct (proxied (w3call pc "name" [])) as [e|pn]; auto.
  destruct (proxied (w3call pc "token0" [])) as [e|a0]; auto.
  destruct (proxied (w3call pc "token1" [])) as [e|a1]; auto.
  cbn [subscript assoc String.eqb Ascii.eqb Bool.eqb raise_or result map collect].
  rewrite !result_async_get_token_info.
  destruct (eth_contract a0 token_abi) as [e|t0]; auto.
  destruct (proxied (w3call t0 "name" [])) as [e|n0]; auto.
  destruct (eth_contract a1 token_abi) as [e|t1]; auto.
  destruct (proxied (w3call t1 "name" [])) as [e|n1]; auto.
Qed.

Lemma proxied_degrade (o : exn + PV) :
  recoverable o = true -> proxied o = inr (degrade o).
Proof.
  destruct o as [e|v]; simpl; auto. now intros ->.
Qed.

Lemma record_of_pair_by_index
      (fc : ETHContractFunctions W3Contract) (uint factory_address r : PV) :
  result w3call (async_get_pair_by_index eth_contract (VObj fc) uint factory_address) = inr r ->
  exists pn a0 n0 a1 n1,
    proxied (w3call (contract fc) "allPairs" [uint]) = inr (match r with
                                                           | VDict ((_, pa) :: _) => pa
                                                           | _ => VNone
                                                           end) /\
    r = PairRecord (match r with VDict ((_, pa) :: _) => pa | _ => VNone end)
                   pn a0 n0 a1 n1.
Proof.
  rewrite result_async_get_pair_by_index. intros H.
  destruct (proxied (w3call (contract fc) "allPairs" [uint])) as [e|pa]; [discriminate|].
  destruct (eth_contract pa pair_abi) as [e|pc]; [discriminate|].
  destruct (proxied (w3call pc "name" [])) as [e|pn]; [discriminate|].
  destruct (proxied (w3call pc "token0" [])) as [e|a0]; [discriminate|].
  destruct (proxied (w3call pc "token1" [])) as [e|a1]; [discriminate|].
  destruct (eth_contract a0 token_abi) as [e|t0]; [discriminate|].
  destruct (proxied (w3call t0 "name" [])) as [e|n0]; [discriminate|].
  destruct (eth_contract a1 token_abi) as [e|t1]; [discriminate|].
  destruct (proxied (w3call t1 "name" [])) as [e|n1]; [discriminate|].
  injection H as <-. exists pn, a0, n0, a1, n1. split; reflexivity.
Qed.

(** ** A failing allPairsLength *)

Lemma async_get_pairs_start (self : Contract W3Contract) (factory_address : PV) (L : Z)
      (c : W3Contract) :
  eth_contract factory_address pair_factory_abi = inr c ->
  async_get_pairs eth_contract self factory_address L
  = Call c "allPairsLength" []
         (fun o =>
            bind (match o with
                  | inr v => Ret v
                  | inl e => if is_Web3Exception e then Ret (VStr "NotFound") else Raise e
                  end)
                 (fun pairs_length =>
                    raise_or (range pairs_length) (fun idxs =>
                    pairs_loop eth_contract self (AsyncBatchProcessor_init L)
                               (mk_ETHContractFunctions c) idxs))).
Proof.
  intros H. unfold async_get_pairs.
  change (_get_abi "pair_factory") with (inr exn pair_factory_abi).
  unfold raise_or at 1 2, ETHContractFunctions_init. rewrite H. reflexivity.
Qed.

Lemma failed_length_call_ends_in_TypeError_helper
        (self : Contract W3Contract) (factory_address : PV) (L : Z)
        (c : W3Contract) (e : exn) :
  eth_contract factory_address pair_factory_abi = inr c ->
  w3call c "allPairsLength" [] = inl e ->
  is_Web3Exception e = true ->
  always w3call (async_get_pairs eth_contract self factory_address L)
         (fun log o => o = inl not_found_error /\ log = [EvCall c "allPairsLength" []]).
Proof.
  intros Hc He W. rewrite (async_get_pairs_start self L Hc).
  assert (K : bind (match w3call c "allPairsLength" [] with
                    | inr v => Ret v
                    | inl e0 => if is_Web3Exception e0 then Ret (VStr "NotFound") else Raise e0
                    end : CO PV)
                   (fun pairs_length =>
                      raise_or (range pairs_length) (fun idxs =>
                      pairs_loop eth_contract self (AsyncBatchProcessor_init L)
                                 (mk_ETHContractFunctions c) idxs))
              = Raise not_found_error).
  { rewrite He, W. reflexivity. }
  assert (S : sent w3call c "allPairsLength" [] = [EvCall c "allPairsLength" []]).
  { apply sent_recoverable. now rewrite He. }
  split.
  - exists [Fire], [EvCall c "allPairsLength" []], (inl not_found_error).
    unfold run. cbn [exec step_at]. rewrite K, S. reflexivity.
  - intros sched log o H.
    apply run_Call in H. destruct H as (sched' & log' & -> & -> & H).
    rewrite K in H. rewrite S.
    destruct (@run_terminal _ (Raise not_found_error) (inl not_found_error)
                o sched' log' eq_refl H) as (_ & -> & ->).
    auto.
Qed.

(** C10. When the preliminary allPairsLength call fails with a
    Web3Exception, [async_get_pairs] neither returns nor raises that
    exception: the proxy turns the failure into "NotFound", [range] of that
    string raises a TypeError, and the run ends there, having made the one
    remote call and submitted no task. *)
Theorem failed_length_call_ends_in_TypeError
        (self : Contract W3Contract) (factory_address : PV) (L : Z)
        (c : W3Contract) (e : exn) :
  eth_contract factory_address pair_factory_abi = inr c ->
  w3call c "allPairsLength" [] = inl e ->
  is_Web3Exception e = true ->
  always w3call (async_get_pairs eth_contract self factory_address L)
         (fun log o => o = inl not_found_error /\ log = [EvCall c "allPairsLength" []]).
Proof.
  apply failed_length_call_ends_in_TypeError_helper.
Qed.

(** ** Where remote failures go *)


(** ** Records *)

Lemma degrade_not_None (o : exn + PV) :
  o <> inr VNone -> degrade o <> VNone.
Proof.
  destruct o as [e|v]; simpl; [discriminate|]. intros H E. apply H. now rewrite E.
Qed.

(** C8, amended.  A value returned by [async_get_pair_by_index] is a
    dictionary of exactly the six fields.  When the three bindings succeed
    and no call fails outside the web3 hierarchy, the record is produced,
    and each field is what its own sub-call returned, or "NotFound" when
    that sub-call failed remotely; the lookups that depend on an address
    are made at the address obtained, which is the sentinel when the
    address lookup failed.  The fields are not None when the node never
    answers None. *)
Theorem produced_record_has_six_fields
        (fc : ETHContractFunctions W3Contract) (uint factory_address : PV) :
  always w3call (async_get_pair_by_index eth_contract (VObj fc) uint factory_address)
         (fun _ o => forall r, o = inr r -> is_record r) /\
  (forall pc t0 t1 : W3Contract,
      let pa := degrade (w3call (contract fc) "allPairs" [uint]) in
      let pn := degrade (w3call pc "name" []) in
      let a0 := degrade (w3call pc "token0" []) in
      let a1 := degrade (w3call pc "token1" []) in
      let n0 := degrade (w3call t0 "name" []) in
      let n1 := degrade (w3call t1 "name" []) in
      eth_contract pa pair_abi = inr pc ->
      eth_contract a0 token_abi = inr t0 ->
      eth_contract a1 token_abi = inr t1 ->
      forallb (@recoverable W3Contract)
              [ w3call (contract fc) "allPairs" [uint];
                w3call pc "name" []; w3call pc "token0" []; w3call pc "token1" [];
                w3call t0 "name" []; w3call t1 "name" [] ] = true ->
      always w3call (async_get_pair_by_index eth_contract (VObj fc) uint factory_address)
             (fun _ o => o = inr (PairRecord pa pn a0 n0 a1 n1)) /\
      ((forall c fn a, w3call c fn a <> inr VNone) ->
       Forall (fun v => v <> VNone) [pa; pn; a0; n0; a1; n1])).
Proof.
  split.
  - apply always_weaken with (1 := always_result _).
    intros _ o E r ->. cbn [to_opt] in E.
    destruct (result w3call (async_get_pair_by_index eth_contract (VObj fc) uint factory_address))
      as [e'|r'] eqn:R; [discriminate|].
    injection E as <-.
    destruct (@record_of_pair_by_index fc uint factory_address r R)
      as (pn & a0 & n0 & a1 & n1 & _ & Q).
    rewrite Q. now exists (match r with VDict ((_, pa) :: _) => pa | _ => VNone end),
                 pn, a0, n0, a1, n1.
  - intros pc t0 t1 pa pn a0 a1 n0 n1 Hpc Ht0 Ht1 Rec.
    cbn [forallb] in Rec. rewrite !andb_true_iff in Rec.
    destruct Rec as (R1 & R2 & R3 & R4 & R5 & R6 & _).
    split.
    + assert (R : result w3call
                    (async_get_pair_by_index eth_contract (VObj fc) uint factory_address)
                  = inr (PairRecord pa pn a0 n0 a1 n1)).
      { rewrite result_async_get_pair_by_index.
        rewrite (proxied_degrade _ R1). fold pa. rewrite Hpc.
        rewrite (proxied_degrade _ R2), (proxied_degrade _ R3), (proxied_degrade _ R4).
        fold pn a0 a1. rewrite Ht0, (proxied_degrade _ R5), Ht1, (proxied_degrade _ R6).
        reflexivity. }
      apply always_weaken with (1 := always_returns _ R). now intros log o [-> _].
    + intros NN. repeat constructor; apply degrade_not_None, NN.
Qed.

(** ** Frames *)

Lemma column_app (key : string) (a b ca cb : list PV) :
  column key a = inr ca -> column key b = inr cb ->
  column key (a ++ b) = inr (ca ++ cb).
Proof.
  unfold column. rewrite map_app. apply collect_app.
Qed.

Lemma to_dataframe_columns (ds : list PV) (df : DataFrame W3Contract) :
  to_dataframe (VList ds) = inr df <->
  column "pair_address" ds = inr (pair_address df) /\
  column "pair_name" ds = inr (pair_name df) /\
  column "token0_address" ds = inr (token0_address df) /\
  column "token0_name" ds = inr (token0_name df) /\
  column "token1_address" ds = inr (token1_address df) /\
  column "token1_name" ds = inr (token1_name df).
Proof.
  unfold to_dataframe. cbn [iterate]. split.
  - intros H.
    destruct (column "pair_address" ds); [discriminate|].
    destruct (column "pair_name" ds); [discriminate|].
    destruct (column "token0_address" ds); [discriminate|].
    destruct (column "token0_name" ds); [discriminate|].
    destruct (column "token1_address" ds); [discriminate|].
    destruct (column "token1_name" ds); [discriminate|].
    injection H as <-. simpl. repeat split; reflexivity.
  - intros (-> & -> & -> & -> & -> & ->). now destruct df.
Qed.

Lemma to_dataframe_app (a b : list PV) (da db : DataFrame W3Contract) :
  to_dataframe (VList a) = inr da -> to_dataframe (VList b) = inr db ->
  to_dataframe (VList (a ++ b)) = inr (_append da db).
Proof.
  rewrite !to_dataframe_columns.
  intros (A1 & A2 & A3 & A4 & A5 & A6) (B1 & B2 & B3 & B4 & B5 & B6).
  simpl. repeat split; now apply column_app.
Qed.

Lemma to_dataframe_records (rs : list PV) :
  Forall (@is_record W3Contract) rs ->
  exists df, to_dataframe (VList rs) = inr df /\ rows df = List.length rs.
Proof.
  induction 1 as [|r rs (pa & pn & a0 & n0 & a1 & n1 & ->) _ (df & T & N)].
  - exists empty_DataFrame. split; reflexivity.
  - exists (_append (mk_DataFrame [pa] [pn] [a0] [n0] [a1] [n1]) df). split.
    + apply (to_dataframe_app [PairRecord pa pn a0 n0 a1 n1] rs); auto.
    + unfold rows in *. simpl. now rewrite N.
Qed.

Lemma _append_assoc (a b c : DataFrame W3Contract) :
  _append (_append a b) c = _append a (_append b c).
Proof.
  unfold _append. simpl. now rewrite <- !app_assoc.
Qed.

Lemma _append_empty_r (a : DataFrame W3Contract) :
  _append a empty_DataFrame = a.
Proof.
  destruct a. unfold _append. simpl. now rewrite !app_nil_r.
Qed.

Lemma _append_empty_l (a : DataFrame W3Contract) :
  _append empty_DataFrame a = a.
Proof. now destruct a. Qed.

(** ** The fetch of one pair prints nothing *)

Lemma printed_events_bind (A B : Type) (c : CO A) (f : A -> CO B) :
  printed (events w3call c) = [] ->
  (forall a, printed (events w3call (f a)) = []) ->
  printed (events w3call (bind c f)) = [].
Proof.
  intros Hc Hf. rewrite events_bind, printed_app, Hc.
  destruct (result w3call c); simpl; auto.
Qed.

Lemma printed_events_raise_or (T A : Type) (o : exn + T) (k : T -> CO A) :
  (forall v, printed (events w3call (k v)) = []) ->
  printed (events w3call (raise_or o k)) = [].
Proof. destruct o; simpl; auto. Qed.

Lemma printed_events_Gather (A : Type) (cs : list (CO PV)) (k : list PV -> CO A) :
  Forall (fun c0 => printed (events w3call c0) = []) cs ->
  (forall vs, printed (events w3call (k vs)) = []) ->
  printed (events w3call (Gather cs k)) = [].
Proof.
  intros Hcs Hk. simpl. rewrite printed_app.
  assert (E : printed (List.concat (map (fun c0 => events w3call c0) cs)) = []).
  { induction Hcs as [|c cs Hc _ IH]; simpl; auto. now rewrite printed_app, Hc, IH. }
  rewrite E. destruct (collect _); simpl; auto.
Qed.

Lemma printed_sent ct fn (a : list PV) : printed (sent w3call ct fn a) = [].
Proof. unfold sent. now destruct (absent _ _). Qed.

Lemma printed_events_call (self : ETHContractFunctions W3Contract) fn a :
  printed (events w3call (__call__ self fn a)) = [].
Proof. rewrite events_call. unfold sent. now destruct (absent _ _). Qed.

Lemma printed_events_token_info (token_address : PV) :
  printed (events w3call (async_get_token_info eth_contract token_address)) = [].
Proof.
  unfold async_get_token_info.
  apply printed_events_raise_or; intros abi.
  apply printed_events_raise_or; intros cf.
  apply printed_events_call.
Qed.

Lemma printed_events_pair_info (pair_address : PV) :
  printed (events w3call (async_get_pair_info eth_contract pair_address)) = [].
Proof.
  unfold async_get_pair_info.
  apply printed_events_raise_or; intros abi.
  apply printed_events_raise_or; intros cf.
  apply printed_events_Gather.
  - repeat constructor; apply printed_events_call.
  - intros vs. repeat (apply printed_events_raise_or; intros ?). reflexivity.
Qed.

Lemma printed_events_pair_by_index (factory_contract uint factory_address : PV) :
  printed (events w3call
             (async_get_pair_by_index eth_contract factory_contract uint factory_address)) = [].
Proof.
  unfold async_get_pair_by_index.
  destruct (andb _ _); [reflexivity|].
  apply printed_events_raise_or; intros fcv.
  apply printed_events_bind.
  { destruct fcv; try reflexivity. apply printed_events_call. }
  intros pa. apply printed_events_bind; [apply printed_events_pair_info|].
  intros pinfo.
  apply printed_events_raise_or; intros a0.
  apply printed_events_raise_or; intros a1.
  apply printed_events_Gather.
  - repeat constructor; apply printed_events_token_info.
  - intros vs. apply printed_events_raise_or; intros [tk0 tk1].
    repeat (apply printed_events_raise_or; intros ?). reflexivity.
Qed.

(** ** The discovery loop *)

Local Notation fetch cf n :=
  (async_get_pair_by_index eth_contract (VObj cf) (VInt (Z.of_nat n)) VNone).

Local Notation fetch_task cf n :=
  (async_get_pair_by_index_func eth_contract,
   [VObj cf; VInt (Z.of_nat n)],
   @nil (string * PV)).

Local Notation batch cf pend :=
  (Gather (map (@apply_task W3Contract) (map (fun n : nat => fetch_task cf n) pend))
          (fun vs => Ret (VList vs))).

Lemma result_batch (cf : ETHContractFunctions W3Contract) (rec : nat -> PV) (pend : list nat) :
  (forall i, In i pend -> result w3call (fetch cf i) = inr (rec i)) ->
  result w3call (batch cf pend : CO PV) = inr (VList (map rec pend)).
Proof.
  intros H. cbn [result]. rewrite !map_map.
  assert (C : collect (map (fun n : nat => result w3call (apply_task (fetch_task cf n))) pend)
              = inr (map rec pend)).
  { induction pend as [|i pend IH]; auto.
    cbn [map collect].
    change (apply_task (fetch_task cf i)) with (fetch cf i).
    rewrite (H i (or_introl eq_refl)), IH; auto.
    intros j Hj. apply H. now right. }
  now rewrite C.
Qed.

Lemma printed_batch (cf : ETHContractFunctions W3Contract) (pend : list nat) :
  printed (events w3call (batch cf pend : CO PV)) = [].
Proof.
  apply printed_events_Gather; [|reflexivity].
  rewrite map_map. induction pend as [|i pend IH]; constructor; auto.
  apply printed_events_pair_by_index.
Qed.

Lemma records_batch (cf : ETHContractFunctions W3Contract) (rec : nat -> PV) (pend : list nat) :
  (forall i, In i pend -> result w3call (fetch cf i) = inr (rec i)) ->
  Forall (@is_record W3Contract) (map rec pend).
Proof.
  intros H. induction pend as [|i pend IH]; constructor.
  - destruct (@record_of_pair_by_index cf (VInt (Z.of_nat i)) VNone (rec i)
                (H i (or_introl eq_refl))) as (pn & a0 & n0 & a1 & n1 & _ & Q).
    rewrite Q. now exists (match rec i with VDict ((_, pa) :: _) => pa | _ => VNone end),
                 pn, a0, n0, a1, n1.
  - apply IH. intros j Hj. apply H. now right.
Qed.

Lemma queued_fetch_nonempty (cf : ETHContractFunctions W3Contract) (pend : list nat) :
  pend <> [] -> map (fun n : nat => fetch_task cf n) pend <> [].
Proof. destruct pend; [contradiction | discriminate]. Qed.

Lemma pairs_loop_spec (L : nat) (cf : ETHContractFunctions W3Contract) (rec : nat -> PV) :
  (1 <= L)%nat ->
  forall (idxs pend : list nat) (self : Contract W3Contract)
         (processor : AsyncBatchProcessor W3Contract),
    queued processor (map (fun n : nat => fetch_task cf n) pend) ->
    limit processor = Z.of_nat L ->
    (List.length pend < L)%nat ->
    (forall i, In i (pend ++ idxs) -> result w3call (fetch cf i) = inr (rec i)) ->
    exists df,
      to_dataframe (VList (map rec (pend ++ idxs))) = inr df /\
      rows df = List.length (pend ++ idxs) /\
      result w3call (pairs_loop eth_contract self processor cf (map Z.of_nat idxs))
      = inr (mk_Contract (_append (result_df self) df), VNone) /\
      printed (events w3call (pairs_loop eth_contract self processor cf (map Z.of_nat idxs)))
      = repeat (String.append (str_of_nat L) " done")
               ((List.length pend + List.length idxs) / L).
Proof.
  intros HL. induction idxs as [|i rest IH]; intros pend self processor Q Hl B H.
  - rewrite app_nil_r in *. cbn [map pairs_loop List.length].
    rewrite Nat.add_0_r, Nat.div_small by lia. cbn [repeat].
    destruct (to_dataframe_records (records_batch cf rec pend H)) as (df & T & N).
    rewrite length_map in N.
    exists df. split; [exact T|]. split; [exact N|].
    destruct pend as [|p pend].
    + rewrite process_tasks_empty by apply Q.
      cbn in T. injection T as <-. rewrite _append_empty_r.
      split; [|reflexivity]. cbn. now destruct self.
    + rewrite (process_tasks_queued Q) by discriminate.
      rewrite result_bind, events_bind, printed_app.
      rewrite (result_batch cf rec (p :: pend) H), (printed_batch cf (p :: pend)).
      cbn [truthy map app]. cbn [map] in T. rewrite T.
      split; reflexivity.
  - cbn [map pairs_loop].
    pose proof (queued_append (async_get_pair_by_index_func eth_contract)
                  [VObj cf; VInt (Z.of_nat i)] [] Q) as Q1.
    pose proof (queued_length Q1) as N1.
    rewrite length_app, length_map in N1.
    change (List.length [fetch_task cf i]) with 1%nat in N1.
    change (map (fun n : nat => fetch_task cf n) pend ++ [fetch_task cf i])
      with (map (fun n : nat => fetch_task cf n) pend
            ++ map (fun n : nat => fetch_task cf n) [i]) in Q1.
    rewrite <- map_app in Q1.
    assert (Hb : forall j, In j (pend ++ [i]) -> result w3call (fetch cf j) = inr (rec j)).
    { intros j Hj. apply H. rewrite in_app_iff in *. simpl in *. tauto. }
    destruct (Nat.eq_dec (List.length pend + 1) L) as [E|E].
    + rewrite add_task_reached by lia.
      rewrite (process_tasks_queued Q1) by (apply queued_fetch_nonempty; now destruct pend).
      destruct (to_dataframe_records (records_batch cf rec (pend ++ [i]) Hb)) as (dfb & Tb & Nb).
      rewrite length_map in Nb.
      destruct (IH [] (mk_Contract (_append (result_df self) dfb))
                   (AsyncBatchProcessor_init (limit (append_task processor
                      (async_get_pair_by_index_func eth_contract)
                      [VObj cf; VInt (Z.of_nat i)] [])))) as (dfr & Tr & Nr & Rr & Pr).
      { now repeat split. }
      { exact Hl. }
      { simpl. lia. }
      { intros j Hj. apply H. rewrite in_app_iff. simpl in *. tauto. }
      cbn [app List.length] in Tr, Nr, Pr.
      exists (_append dfb dfr). split; [|split; [|split]].
      * change (pend ++ i :: rest) with (pend ++ [i] ++ rest).
        rewrite app_assoc, map_app. now apply to_dataframe_app.
      * unfold rows in *. cbn [pair_address _append].
        rewrite length_app, Nb, Nr, !length_app. simpl. lia.
      * rewrite result_bind, (result_batch cf rec (pend ++ [i]) Hb).
        assert (Tt : truthy (VList (map rec (pend ++ [i]))) = true).
        { rewrite map_app. destruct (map rec pend); reflexivity. }
        rewrite Tt, Tb. cbn [raise_or len result]. rewrite Rr.
        cbn [result_df]. now rewrite _append_assoc.
      * rewrite events_bind, printed_app, (printed_batch cf (pend ++ [i])).
        rewrite (result_batch cf rec (pend ++ [i]) Hb).
        assert (Tt : truthy (VList (map rec (pend ++ [i]))) = true).
        { rewrite map_app. destruct (map rec pend); reflexivity. }
        rewrite Tt, Tb. cbn [raise_or len events printed app]. rewrite Pr.
        rewrite length_map, length_app.
        change (List.length [i]) with 1%nat. rewrite E.
        cbn [List.length app].
        replace (List.length pend + S (List.length rest))%nat
          with (1 * L + List.length rest)%nat by lia.
        rewrite Nat.div_add_l by lia. reflexivity.
    + rewrite add_task_below by lia.
      destruct (IH (pend ++ [i]) self
                   (append_task processor (async_get_pair_by_index_func eth_contract)
                                [VObj cf; VInt (Z.of_nat i)] [])) as (df & T & N & R & P).
      { exact Q1. }
      { exact Hl. }
      { rewrite length_app. simpl. lia. }
      { intros j Hj. apply H. now rewrite <- app_assoc in Hj. }
      rewrite <- app_assoc in T, N. rewrite length_app in P.
      exists df. split; [exact T|]. split; [exact N|].
      cbn [bind truthy]. split; [exact R|].
      rewrite P. do 2 f_equal. simpl. lia.
Qed.

(** C5, amended.  For a factory whose allPairsLength() is N, a batch limit
    L >= 1 and an empty starting frame, when the fetch of each index
    0..N-1 returns its record, [async_get_pairs] ends, under every
    schedule, with the frame of exactly those N records in ascending index
    order, and prints "L done" once per automatic flush, N / L times: one
    "2 done" for N = 3 and L = 2, the last record coming from the final
    flush, and no row and no print for N = 0. *)
Theorem discovered_table_is_in_index_order
        (factory_address : PV) (L N : nat) (c : W3Contract) (rec : nat -> PV) :
  (1 <= L)%nat ->
  eth_contract factory_address pair_factory_abi = inr c ->
  w3call c "allPairsLength" [] = inr (VInt (Z.of_nat N)) ->
  (forall i, (i < N)%nat ->
             result w3call (fetch (mk_ETHContractFunctions c) i) = inr (rec i)) ->
  exists df,
    to_dataframe (VList (map rec (seq 0 N))) = inr df /\
    rows df = N /\
    always w3call (async_get_pairs eth_contract Contract_init factory_address (Z.of_nat L))
           (fun log o =>
              o = inr (mk_Contract df, VNone) /\
              printed log = repeat (String.append (str_of_nat L) " done") (N / L)).
Proof.
  intros HL Hc Hn H.
  destruct (@pairs_loop_spec L (mk_ETHContractFunctions c) rec HL (seq 0 N) []
              Contract_init (AsyncBatchProcessor_init (Z.of_nat L)))
    as (df & T & Nr & R & P).
  { now repeat split. }
  { reflexivity. }
  { simpl. lia. }
  { intros i Hi. apply H. simpl in Hi. apply in_seq in Hi. lia. }
  change ([] ++ seq 0 N) with (seq 0 N) in T, Nr.
  change (List.length (@nil nat)) with O in P.
  rewrite length_seq in Nr, P. change (0 + N)%nat with N in P.
  change (result_df Contract_init) with (@empty_DataFrame W3Contract) in R.
  rewrite _append_empty_l in R.
  exists df. split; [exact T|]. split; [exact Nr|].
  assert (K : bind (match w3call c "allPairsLength" [] with
                    | inr v => Ret v
                    | inl e0 => if is_Web3Exception e0 then Ret (VStr "NotFound") else Raise e0
                    end : CO PV)
                   (fun pairs_length =>
                      raise_or (range pairs_length) (fun idxs =>
                      pairs_loop eth_contract Contract_init
                                 (AsyncBatchProcessor_init (Z.of_nat L))
                                 (mk_ETHContractFunctions c) idxs))
              = pairs_loop eth_contract Contract_init
                           (AsyncBatchProcessor_init (Z.of_nat L))
                           (mk_ETHContractFunctions c) (map Z.of_nat (seq 0 N))).
  { rewrite Hn. cbn [bind range raise_or]. now rewrite Nat2Z.id. }
  assert (Rs : result w3call
                 (async_get_pairs eth_contract Contract_init factory_address (Z.of_nat L))
               = inr (mk_Contract df, VNone)).
  { rewrite (async_get_pairs_start Contract_init (Z.of_nat L) Hc).
    cbn [result]. now rewrite K. }
  apply always_weaken with (1 := always_returns _ Rs).
  intros log o [-> Pm]. split; auto.
  apply Permutation_printed in Pm.
  rewrite (async_get_pairs_start Contract_init (Z.of_nat L) Hc) in Pm.
  cbn [events] in Pm. rewrite printed_app, printed_sent, K, P in Pm.
  apply Permutation_repeat. now symmetry.
Qed.

End Facts.

(** * The statements at the example nodes *)

Lemma table_call_answers (t : node_table) :
  Forall (fun en : string * string * list Z * (exn + val) => snd en <> inr VNone) t ->
  forall c fn a, table_call t c fn a <> inr VNone.
Proof.
  intros F c fn a. unfold table_call.
  destruct (existsb _ _); [|discriminate].
  induction F as [|[[[addr' fn'] a'] o] t Ho _ IH]; simpl; [discriminate|].
  destruct (andb _ _); auto.
Qed.

Lemma proxy_returns_value_or_sentinel_witness :
  let token_A := mk_ETHContractFunctions ("0xA", ["name"]) in
  let nowhere := mk_ETHContractFunctions ("NotFound", ["name"]) in
  (table_call three_pairs (contract token_A) "name" [] = ok "TokA" /\
   always (table_call three_pairs) (__call__ token_A "name" [])
          (fun log o => o = inr (VStr "TokA") /\
                        log = [EvCall (contract token_A) "name" []])) /\
  (table_call three_pairs (contract nowhere) "name" [] = reverted /\
   always (table_call three_pairs) (__call__ nowhere "name" [])
          (fun log o => o = inr (VStr "NotFound") /\
                        log = [EvCall (contract nowhere) "name" []])).
Proof.
  intros token_A nowhere. split; split; try reflexivity.
  - apply (proj1 (proxy_returns_value_or_sentinel (table_call three_pairs)
                    token_A "name" [])).
    reflexivity.
  - apply (proj2 (proxy_returns_value_or_sentinel (table_call three_pairs)
                    nowhere "name" []) (Web3Exception "execution reverted"));
      reflexivity.
Defined.

Lemma flush_of_empty_queue_returns_None_witness :
  func (AsyncBatchProcessor_init (W3Contract := W3) 5) = [] /\
  fst (process_tasks (AsyncBatchProcessor_init (W3Contract := W3) 5))
  = AsyncBatchProcessor_init 5 /\
  always (table_call three_pairs)
         (snd (process_tasks (AsyncBatchProcessor_init 5)))
         (fun log o => o = inr VNone /\ log = []).
Proof.
  split; [reflexivity|].
  apply (flush_of_empty_queue_returns_None (table_call three_pairs)
           (AsyncBatchProcessor_init 5)).
  reflexivity.
Defined.

(** The flush of an empty queue does not return an empty sequence. *)
Lemma flush_of_empty_queue_is_not_a_sequence :
  ~ always (table_call three_pairs)
           (snd (process_tasks (AsyncBatchProcessor_init 5)))
           (fun _ o => o = inr (VList [])).
Proof.
  intros [_ H]. specialize (H [] [] (inr VNone) eq_refl). discriminate.
Qed.

Lemma queue_never_exceeds_limit_witness :
  let self := fst (add_task (AsyncBatchProcessor_init 2) name_of [VStr "0xA"] []) in
  let self1 := append_task self name_of [VStr "0xB"] [] in
  0 < 2 /\ reachable 2 self /\
  Z.of_nat (List.length (func self)) < 2 /\
  Z.of_nat (List.length (func self1)) <= 2 /\
  (Z.of_nat (List.length (func self1)) = 2 ->
   add_task self name_of [VStr "0xB"] [] = process_tasks self1 /\
   func (fst (add_task self name_of [VStr "0xB"] [])) = [] /\
   exists ts, queued self1 ts /\ Z.of_nat (List.length ts) = 2 /\
              snd (add_task self name_of [VStr "0xB"] [])
              = Gather (map (@apply_task W3) ts) (fun vs => Ret (VList vs))) /\
  (Z.of_nat (List.length (func self1)) < 2 ->
   add_task self name_of [VStr "0xB"] [] = (self1, Ret VNone)).
Proof.
  intros self self1.
  split; [lia|]. split; [apply reachable_add_task, reachable_init|].
  apply (queue_never_exceeds_limit (L := 2) (self := self) name_of [VStr "0xB"] []).
  - lia.
  - apply reachable_add_task, reachable_init.
Defined.

Lemma flushes_of_K_submissions_witness :
  let ts : list (task W3) :=
    [ (name_of, [VStr "0xA"], []); (name_of, [VStr "0xB"], []);
      (name_of, [VStr "0xC"], []) ] in
  (1 <= 2)%nat /\
  map (fun c => flush_size c) (fst (submit_then_flush 2 ts)) = [None; Some 2%nat; None] /\
  flush_sizes (fst (submit_then_flush 2 ts)) = [2%nat] /\
  flush_size (snd (submit_then_flush 2 ts)) = Some 1%nat /\
  List.length (flush_sizes (fst (submit_then_flush 2 ts) ++ [snd (submit_then_flush 2 ts)]))
  = 2%nat.
Proof.
  intros ts. split; [lia|].
  apply (flushes_of_K_submissions (L := 2) ts). lia.
Defined.

Lemma flush_returns_results_in_submission_order_witness :
  let self : AsyncBatchProcessor W3 :=
    mk_AsyncBatchProcessor 5 [name_of; name_of] [[VStr "0xA"]; [VStr "0xB"]] [[]; []] in
  fst (process_tasks self) = AsyncBatchProcessor_init 5 /\
  always (table_call three_pairs) (snd (process_tasks self))
         (fun _ o => o = inr (VList [VStr "TokA"; VStr "TokB"])) /\
  run (table_call three_pairs) [Inside 1 Fire; Inside 0 Fire; Fire]
      (snd (process_tasks self))
  = Some ([EvCall ("0xB", ["name"]) "name" []; EvCall ("0xA", ["name"]) "name" []],
          inr (VList [VStr "TokA"; VStr "TokB"])).
Proof.
  intros self.
  destruct (flush_returns_results_in_submission_order (table_call three_pairs)
              (self := self)
              (ts := [(name_of, [VStr "0xA"], []); (name_of, [VStr "0xB"], [])])
              (vs := [VStr "TokA"; VStr "TokB"])) as [E A].
  - repeat split; reflexivity.
  - discriminate.
  - repeat constructor.
  - split; [exact E|]. split; [exact A|]. reflexivity.
Defined.

Lemma failed_length_call_ends_in_TypeError_witness :
  let c : W3 := ("0xF", map abi_name pair_factory_abi) in
  lax_contract (VStr "0xF") pair_factory_abi = inr c /\
  table_call allPairsLength_fails c "allPairsLength" [] = reverted /\
  always (table_call allPairsLength_fails)
         (async_get_pairs lax_contract Contract_init (VStr "0xF") 2)
         (fun log o => o = inl not_found_error /\ log = [EvCall c "allPairsLength" []]).
Proof.
  intros c. split; [reflexivity|]. split; [reflexivity|].
  apply (failed_length_call_ends_in_TypeError lax_contract
           (table_call allPairsLength_fails) Contract_init (VStr "0xF") 2
           (c := c) (e := Web3Exception "execution reverted")); reflexivity.
Defined.



Lemma produced_record_has_six_fields_witness :
  let pc : W3 := ("0xP2", map abi_name pair_abi) in
  let t0 : W3 := ("NotFound", map abi_name token_abi) in
  let t1 : W3 := ("0xC", map abi_name token_abi) in
  (table_call token0_of_pair2_fails pc "token0" [] = reverted /\
   lax_contract (VStr "0xP2") pair_abi = inr pc /\
   lax_contract (VStr "NotFound") token_abi = inr t0 /\
   lax_contract (VStr "0xC") token_abi = inr t1) /\
  always (table_call token0_of_pair2_fails)
         (async_get_pair_by_index lax_contract (VObj factory) (VInt 2) VNone)
         (fun _ o => forall r, o = inr r -> is_record r) /\
  always (table_call token0_of_pair2_fails)
         (async_get_pair_by_index lax_contract (VObj factory) (VInt 2) VNone)
         (fun _ o => o = inr (PairRecord (VStr "0xP2") (VStr "P2")
                                         (VStr "NotFound") (VStr "NotFound")
                                         (VStr "0xC") (VStr "TokC"))) /\
  Forall (fun v : val => v <> VNone)
         [VStr "0xP2"; VStr "P2"; VStr "NotFound"; VStr "NotFound"; VStr "0xC"; VStr "TokC"].
Proof.
  intros pc t0 t1. split; [repeat split; reflexivity|].
  destruct (produced_record_has_six_fields lax_contract
              (table_call token0_of_pair2_fails) factory (VInt 2) VNone) as [S R].
  split; [exact S|].
  destruct (R pc t0 t1) as [A N]; try reflexivity.
  split; [exact A|].
  apply N. apply table_call_answers.
  repeat constructor; discriminate.
Defined.

(** One failing sub-call, token0() of pair 2, and nothing else changed:
    the name of token 0 is no longer looked up at the token's address, so
    [token0_name] changes too; and with a binding that rejects the sentinel
    as an address no record is produced at all. *)
Lemma failed_token0_changes_other_fields :
  let pc : W3 := ("0xP2", map abi_name pair_abi) in
  table_call token0_of_pair2_fails pc "token0" [] = reverted /\
  table_call token0_of_pair2_fails ("0xA", map abi_name token_abi) "name" [] = ok "TokA" /\
  result (table_call three_pairs)
         (async_get_pair_by_index lax_contract (VObj factory) (VInt 2) VNone)
  = inr (PairRecord (VStr "0xP2") (VStr "P2") (VStr "0xA") (VStr "TokA")
                    (VStr "0xC") (VStr "TokC")) /\
  result (table_call token0_of_pair2_fails)
         (async_get_pair_by_index lax_contract (VObj factory) (VInt 2) VNone)
  = inr (PairRecord (VStr "0xP2") (VStr "P2") (VStr "NotFound") (VStr "NotFound")
                    (VStr "0xC") (VStr "TokC")) /\
  result (table_call token0_of_pair2_fails)
         (async_get_pair_by_index strict_contract (VObj factory) (VInt 2) VNone)
  = inl (Web3Exception "InvalidAddress").
Proof.
  repeat split; vm_compute; reflexivity.
Qed.

Lemma discovered_table_is_in_index_order_witness :
  let c : W3 := ("0xF", map abi_name pair_factory_abi) in
  (1 <= 2)%nat /\
  lax_contract (VStr "0xF") pair_factory_abi = inr c /\
  table_call three_pairs c "allPairsLength" [] = inr (VInt (Z.of_nat 3)) /\
  always (table_call three_pairs)
         (async_get_pairs lax_contract Contract_init (VStr "0xF") (Z.of_nat 2))
         (fun log o =>
            o = inr (mk_Contract
                       (mk_DataFrame
                          [VStr "0xP0"; VStr "0xP1"; VStr "0xP2"]
                          [VStr "P0"; VStr "P1"; VStr "P2"]
                          [VStr "0xA"; VStr "0xB"; VStr "0xA"]
                          [VStr "TokA"; VStr "TokB"; VStr "TokA"]
                          [VStr "0xB"; VStr "0xC"; VStr "0xC"]
                          [VStr "TokB"; VStr "TokC"; VStr "TokC"]),
                     VNone) /\
            printed log = ["2 done"]).
Proof.
  intros c. split; [lia|]. split; [reflexivity|]. split; [reflexivity|].
  destruct (discovered_table_is_in_index_order lax_contract (table_call three_pairs)
              (VStr "0xF") (L := 2) (N := 3) (c := c)
              (fun i => match result (table_call three_pairs)
                                     (async_get_pair_by_index lax_contract
                                        (VObj (mk_ETHContractFunctions c))
                                        (VInt (Z.of_nat i)) VNone) with
                        | inr r => r
                        | inl _ => VNone
                        end))
    as (df & T & _ & A).
  - lia.
  - reflexivity.
  - reflexivity.
  - intros i Hi.
    destruct i as [|[|[|i]]]; [reflexivity | reflexivity | reflexivity | lia].
  - vm_compute in T. injection T as <-. exact A.
Defined.

(** C5, without its condition.  The factory reports three pairs and the
    limit is 2, yet no table of three rows comes out.  At the first node
    token0() of pair 2 fails remotely and the binding rejects the sentinel
    as an address, so the fetch of index 2 raises out of the final flush,
    after the automatic flush of indices 0 and 1.  At the second node the
    calls after the length get no reply, so the first batch raises.  In
    both, every run of the discovery ends in an exception. *)
Lemma three_reported_pairs_without_a_table :
  let c : W3 := ("0xF", map abi_name pair_factory_abi) in
  (1 <= 2)%nat /\
  strict_contract (VStr "0xF") pair_factory_abi = inr c /\
  table_call token0_of_pair2_fails c "allPairsLength" [] = inr (VInt (Z.of_nat 3)) /\
  result (table_call token0_of_pair2_fails)
         (async_get_pairs strict_contract Contract_init (VStr "0xF") (Z.of_nat 2))
  = inl (Web3Exception "InvalidAddress") /\
  printed (events (table_call token0_of_pair2_fails)
                  (async_get_pairs strict_contract Contract_init (VStr "0xF")
                                   (Z.of_nat 2)))
  = ["2 done"] /\
  always (table_call token0_of_pair2_fails)
         (async_get_pairs strict_contract Contract_init (VStr "0xF") (Z.of_nat 2))
         (fun _ o => exists e, o = inl e) /\
  lax_contract (VStr "0xF") pair_factory_abi = inr c /\
  table_call silent_after_length c "allPairsLength" [] = inr (VInt (Z.of_nat 3)) /\
  result (table_call silent_after_length)
         (async_get_pairs lax_contract Contract_init (VStr "0xF") (Z.of_nat 2))
  = inl (OtherError "ConnectionError" "no reply") /\
  always (table_call silent_after_length)
         (async_get_pairs lax_contract Contract_init (VStr "0xF") (Z.of_nat 2))
         (fun _ o => exists e, o = inl e).
Proof.
  intros c. split; [lia|].
  split; [reflexivity|]. split; [reflexivity|].
  split; [vm_compute; reflexivity|]. split; [vm_compute; reflexivity|].
  split.
  { apply (@always_raises W3 (table_call token0_of_pair2_fails) _ _
             (Web3Exception "InvalidAddress")).
    vm_compute. reflexivity. }
  split; [reflexivity|]. split; [reflexivity|].
  split; [vm_compute; reflexivity|].
  apply (@always_raises W3 (table_call silent_after_length) _ _
           (OtherError "ConnectionError" "no reply")).
  vm_compute. reflexivity.
Qed.

(** ** Two more runs at the example node *)

(** Three pairs with limit 2, left to right: the calls of indices 0 and 1,
    the print of the automatic flush, then the calls of index 2, which the
    final flush runs. *)
Lemma three_pairs_limit_two_log :
  let f : W3 := ("0xF", map abi_name pair_factory_abi) in
  let p (n : string) : W3 := (n, map abi_name pair_abi) in
  let t (n : string) : W3 := (n, map abi_name token_abi) in
  run (table_call three_pairs)
      (schedule (table_call three_pairs)
                (async_get_pairs lax_contract Contract_init (VStr "0xF") 2))
      (async_get_pairs lax_contract Contract_init (VStr "0xF") 2)
  = Some ([ EvCall f "allPairsLength" [];
            EvCall f "allPairs" [VInt 0];
            EvCall (p "0xP0") "name" []; EvCall (p "0xP0") "token0" [];
            EvCall (p "0xP0") "token1" [];
            EvCall (t "0xA") "name" []; EvCall (t "0xB") "name" [];
            EvCall f "allPairs" [VInt 1];
            EvCall (p "0xP1") "name" []; EvCall (p "0xP1") "token0" [];
            EvCall (p "0xP1") "token1" [];
            EvCall (t "0xB") "name" []; EvCall (t "0xC") "name" [];
            EvPrint "2 done";
            EvCall f "allPairs" [VInt 2];
            EvCall (p "0xP2") "name" []; EvCall (p "0xP2") "token0" [];
            EvCall (p "0xP2") "token1" [];
            EvCall (t "0xA") "name" []; EvCall (t "0xC") "name" [] ],
          result (table_call three_pairs)
                 (async_get_pairs lax_contract Contract_init (VStr "0xF") 2)).
Proof.
  vm_compute. reflexivity.
Qed.

(** A failing name() of pair 2 puts the sentinel in [pair_name] and leaves
    the other five fields as they were. *)
Lemma failed_pair_name_leaves_other_fields :
  result (table_call name_of_pair2_fails)
         (async_get_pair_by_index lax_contract (VObj factory) (VInt 2) VNone)
  = inr (PairRecord (VStr "0xP2") (VStr "NotFound") (VStr "0xA") (VStr "TokA")
                    (VStr "0xC") (VStr "TokC")).
Proof.
  vm_compute. reflexivity.
Qed.

(** * Further properties of the module *)

Section More.

Variable W3Contract : Type.
Variable eth_contract : pyval W3Contract -> list abi_entry -> exn + W3Contract.
Variable w3call : W3Contract -> string -> list (pyval W3Contract) -> exn + pyval W3Contract.

Local Notation PV := (pyval W3Contract).
Local Notation CO := (coro W3Contract).
Local Notation EV := (event W3Contract).

(** ** What a run can log *)

Lemma concat_events_update_rest (cs : list (CO PV)) (i : nat) (ci ci' : CO PV)
      (ev rest : list EV) :
  nth_error cs i = Some ci ->
  Permutation (events w3call ci) (ev ++ events w3call ci' ++ rest) ->
  Permutation (List.concat (map (fun c0 => events w3call c0) cs))
              (ev ++ List.concat (map (fun c0 => events w3call c0) (list_update i ci' cs))
                  ++ rest).
Proof.
  revert i; induction cs as [|c cs IH]; intros [|i] N Hp; simpl in *;
    try discriminate.
  - injection N as ->.
    rewrite (Permutation_app_tail _ Hp), <- !app_assoc.
    apply Permutation_app_head, Permutation_app_head, Permutation_app_comm.
  - specialize (IH i N Hp).
    rewrite (Permutation_app_head _ IH), <- !app_assoc.
    rewrite !app_assoc. do 2 apply Permutation_app_tail. apply Permutation_app_comm.
Qed.

Lemma step_at_included (p : pick) :
  forall (A : Type) (c c' : CO A) (ev : list EV),
    step_at w3call p c = Some (ev, c') ->
    exists rest, Permutation (events w3call c) (ev ++ events w3call c' ++ rest).
Proof.
  induction p as [| i | i p IH]; intros A c c' ev H; destruct c; simpl in H;
    try discriminate.
  - injection H as <- <-. exists []. now rewrite app_nil_r.
  - injection H as <- <-. exists []. now rewrite app_nil_r.
  - destruct (sequence_opt _) as [vs|] eqn:E; [|discriminate].
    injection H as <- <-. exists []. simpl.
    rewrite (all_returned _ E), collect_returned, events_returned.
    now rewrite app_nil_r.
  - destruct (nth_error cs i) as [ci|]; [|discriminate].
    destruct (raised ci); [|discriminate].
    injection H as <- <-. eexists. simpl. reflexivity.
  - destruct (nth_error cs i) as [ci|] eqn:N; [|discriminate].
    destruct (step_at w3call p ci) as [[ev' ci']|] eqn:S; [|discriminate].
    injection H as <- <-.
    destruct (IH _ _ _ _ S) as [rest Hp].
    pose proof (@collect_update _ w3call cs i ci ci' N (step_at_value _ _ _ S)) as V.
    exists rest. simpl.
    rewrite (Permutation_app_tail _ (@concat_events_update_rest cs i ci ci' ev' rest N Hp)).
    rewrite <- !app_assoc. do 2 apply Permutation_app_head.
    destruct (collect (map _ (list_update i ci' cs))) as [e1|v1],
             (collect (map _ cs)) as [e2|v2]; simpl in V; try discriminate.
    + now rewrite app_nil_r.
    + injection V as ->. apply Permutation_app_comm.
Qed.

Lemma exec_included (sched : list pick) :
  forall (A : Type) (c c' : CO A) (log : list EV),
    exec w3call sched c = Some (log, c') ->
    exists rest, Permutation (events w3call c) (log ++ events w3call c' ++ rest).
Proof.
  induction sched as [|p sched IH]; intros A c c' log H; simpl in H.
  - injection H as <- <-. exists []. now rewrite app_nil_r.
  - destruct (step_at w3call p c) as [[ev c1]|] eqn:S; [|discriminate].
    destruct (exec w3call sched c1) as [[log1 c2]|] eqn:X; [|discriminate].
    injection H as <- <-.
    destruct (step_at_included _ _ S) as [r1 P1].
    destruct (IH _ _ _ _ X) as [r2 P2].
    exists (r2 ++ r1).
    rewrite P1, <- !app_assoc. apply Permutation_app_head.
    rewrite (Permutation_app_tail r1 P2). now rewrite <- !app_assoc.
Qed.

(** Whatever a run has logged so far, complete or not, returning or
    raising, is part of the left-to-right log. *)
Lemma exec_log_Forall (A : Type) (P : EV -> Prop) (sched : list pick)
      (c c' : CO A) (log : list EV) :
  Forall P (events w3call c) ->
  exec w3call sched c = Some (log, c') ->
  Forall P log.
Proof.
  intros F H. destruct (exec_included _ _ H) as [rest Hp].
  apply (Permutation_Forall Hp) in F. now apply Forall_app in F.
Qed.

(** ** The processor neither loses nor repeats a task *)

Lemma submit_all_batches (ts : list (task W3Contract)) :
  forall (self : AsyncBatchProcessor W3Contract) (pend : list (task W3Contract)),
    queued self pend ->
    exists pend',
      queued (fst (submit_all self ts)) pend' /\
      List.concat (map (@batch_of W3Contract) (snd (submit_all self ts)))
      ++ map (@apply_task W3Contract) pend'
      = map (@apply_task W3Contract) (pend ++ ts).
Proof.
  induction ts as [|[[f a] k] ts IH]; intros self pend Q.
  - exists pend. simpl. now rewrite app_nil_r.
  - simpl. pose proof (queued_append f a k Q) as Q1.
    unfold add_task.
    destruct (Z.of_nat _ >=? _).
    + rewrite (process_tasks_queued Q1) by (now destruct pend).
      destruct (IH (AsyncBatchProcessor_init (limit (append_task self f a k))) [])
        as (pend' & Q' & E); [now repeat split|].
      destruct (submit_all _ ts) as [self2 others]. simpl in *.
      exists pend'. split; auto.
      rewrite <- app_assoc, E, <- map_app, <- app_assoc. reflexivity.
    + destruct (IH (append_task self f a k) (pend ++ [(f, a, k)]) Q1)
        as (pend' & Q' & E).
      destruct (submit_all _ ts) as [self2 others]. simpl in *.
      exists pend'. split; auto. now rewrite E, <- app_assoc.
Qed.

(** X1. Whatever the limit, positive or not, the batches run by the
    submits of a list of tasks and by the final flush, one after the other,
    are exactly the submitted tasks in submission order: none is lost,
    none runs twice. *)
Theorem batches_are_the_submitted_tasks (L : Z) (ts : list (task W3Contract)) :
  List.concat (map (@batch_of W3Contract)
                   (fst (submit_then_flush L ts) ++ [snd (submit_then_flush L ts)]))
  = map (@apply_task W3Contract) ts.
Proof.
  unfold submit_then_flush.
  destruct (@submit_all_batches ts (AsyncBatchProcessor_init L) [])
    as (pend' & Q' & E); [now repeat split|].
  destruct (submit_all _ ts) as [self1 cs]. simpl in *.
  rewrite map_app, concat_app. simpl. rewrite app_nil_r, <- E. f_equal.
  destruct pend' as [|t pend'].
  - now rewrite process_tasks_empty by apply Q'.
  - now rewrite (process_tasks_queued Q') by discriminate.
Qed.

(** ** A limit of one or less *)

Lemma reachable_small_limit (L : Z) (self : AsyncBatchProcessor W3Contract) :
  L <= 1 -> reachable L self -> self = AsyncBatchProcessor_init L.
Proof.
  intros HL R. induction R as [| self f a k R IH | self R IH].
  - reflexivity.
  - subst self. rewrite add_task_reached by (simpl; lia).
    now rewrite (@process_tasks_queued _ _ [(f, a, k)]).
  - subst self. reflexivity.
Qed.

(** X2. The constructor accepts any limit.  With a limit of one, zero
    or a negative number, the queue is empty whenever a method returns, and
    each submit at once runs its own task alone and returns the one-element
    list of its result. *)
Theorem small_limit_runs_each_task_alone
        (L : Z) (self : AsyncBatchProcessor W3Contract) (f : pyfunc W3Contract)
        (a : list PV) (k : list (string * PV)) (v : PV) :
  L <= 1 -> reachable L self ->
  result w3call (f a k) = inr v ->
  func self = [] /\
  add_task self f a k
  = (AsyncBatchProcessor_init L, Gather [f a k] (fun vs => Ret (VList vs))) /\
  always w3call (snd (add_task self f a k)) (fun _ o => o = inr (VList [v])).
Proof.
  intros HL R Hv. rewrite (reachable_small_limit HL R).
  assert (E : add_task (AsyncBatchProcessor_init L) f a k
              = (AsyncBatchProcessor_init L, Gather [f a k] (fun vs => Ret (VList vs)))).
  { rewrite add_task_reached by (simpl; lia).
    now rewrite (@process_tasks_queued _ _ [(f, a, k)]). }
  split; [reflexivity|]. split; [exact E|].
  rewrite E. cbn [snd].
  assert (Rs : result w3call (Gather [f a k] (fun vs => Ret (VList vs)) : CO PV)
               = inr (VList [v])).
  { simpl. now rewrite Hv. }
  apply always_weaken with (1 := always_returns _ _ Rs). now intros log o [-> _].
Qed.

(** ** The three parallel lists *)

Lemma reachable_aligned (L : Z) (self : AsyncBatchProcessor W3Contract) :
  reachable L self -> limit self = L /\ exists ts, queued self ts.
Proof.
  intros R. induction R as [| self f a k R (Hl & ts & Q) | self R (Hl & ts & Q)].
  - split; [reflexivity|]. exists []. now repeat split.
  - pose proof (queued_append f a k Q) as Q1.
    unfold add_task. destruct (Z.of_nat _ >=? _).
    + rewrite (process_tasks_queued Q1) by (now destruct ts).
      split; [exact Hl|]. exists []. now repeat split.
    + split; [exact Hl|]. eauto.
  - destruct ts as [|t ts].
    + rewrite process_tasks_empty by apply Q. eauto.
    + rewrite (process_tasks_queued Q) by discriminate.
      split; [exact Hl|]. exists []. now repeat split.
Qed.

(** X3. Through [add_task] and [process_tasks] the lists [func],
    [args] and [kwargs] always have the same length, whatever the limit, so
    neither method ever raises the IndexError of the task-building loop:
    each returns None or awaits a gather. *)
Theorem parallel_lists_stay_in_step
        (L : Z) (self : AsyncBatchProcessor W3Contract) (f : pyfunc W3Contract)
        (a : list PV) (k : list (string * PV)) :
  reachable L self ->
  List.length (args self) = List.length (func self) /\
  List.length (kwargs self) = List.length (func self) /\
  (forall e, snd (process_tasks self) <> Raise e) /\
  (forall e, snd (add_task self f a k) <> Raise e).
Proof.
  intros R. destruct (reachable_aligned R) as (_ & ts & Q).
  assert (P : forall (s : AsyncBatchProcessor W3Contract) us e,
             queued s us -> snd (process_tasks s) <> Raise e).
  { intros s us e Qs. destruct us as [|u us].
    - rewrite process_tasks_empty by apply Qs. discriminate.
    - rewrite (process_tasks_queued Qs) by discriminate. discriminate. }
  destruct Q as (Hf & Ha & Hk). rewrite Hf, Ha, Hk, !length_map.
  split; [reflexivity|]. split; [reflexivity|]. split.
  - intros e. apply (P self ts). now repeat split.
  - intros e. unfold add_task. destruct (Z.of_nat _ >=? _).
    + apply (P _ (ts ++ [(f, a, k)])). apply queued_append. now repeat split.
    + discriminate.
Qed.

Lemma make_tasks_short (fs : list (pyfunc W3Contract)) :
  forall (az : list (list PV)) (kz : list (list (string * PV))),
    (List.length az < List.length fs)%nat \/ (List.length kz < List.length fs)%nat ->
    make_tasks fs az kz = inl (IndexError "list index out of range").
Proof.
  induction fs as [|f fs IH]; intros az kz H; simpl in *; [lia|].
  destruct az as [|a az]; [reflexivity|].
  destruct kz as [|k kz]; [reflexivity|].
  rewrite IH; [reflexivity | simpl in H; lia].
Qed.

(** X4. If the lists are out of step, [args] or [kwargs] shorter than
    a non-empty [func] (which only a write from outside the two methods
    can cause), a flush raises IndexError while it builds the tasks, before
    it clears anything: the queue is left as it was and no task starts. *)
Theorem flush_of_lists_out_of_step (self : AsyncBatchProcessor W3Contract) :
  ((List.length (args self) < List.length (func self))%nat \/
   (List.length (kwargs self) < List.length (func self))%nat) ->
  process_tasks self = (self, Raise (IndexError "list index out of range")) /\
  always w3call (snd (process_tasks self))
         (fun log o => o = inl (IndexError "list index out of range") /\ log = []).
Proof.
  intros H.
  assert (E : process_tasks self = (self, Raise (IndexError "list index out of range"))).
  { unfold process_tasks. rewrite (@make_tasks_short (func self) (args self) (kwargs self) H).
    destruct (func self); [simpl in H; lia | reflexivity]. }
  split; [exact E|]. rewrite E. cbn [snd]. split.
  - exists [], [], (inl (IndexError "list index out of range")). reflexivity.
  - intros sched log o R.
    destruct (@run_terminal _ w3call _ (Raise (IndexError "list index out of range") : CO PV)
                (inl (IndexError "list index out of range")) o sched log eq_refl R)
      as (_ & -> & ->).
    auto.
Qed.

(** ** A batch with a failing task *)

Lemma collect_In_inl (E T : Type) (l : list (E + T)) (e : E) :
  In (inl e) l -> exists e', collect l = inl e'.
Proof.
  induction l as [|[e0|x] l IH]; simpl; intros H.
  - contradiction.
  - eauto.
  - destruct H as [H|H]; [discriminate|].
    destruct (IH H) as [e' ->]. eauto.
Qed.

(** X5. When a task of the queue raises, the flush raises under every
    schedule and returns no partial list of results; the queue has already
    been emptied, so the tasks of that batch are not kept for a retry. *)
Theorem flush_with_a_failing_task
        (self : AsyncBatchProcessor W3Contract) (ts : list (task W3Contract))
        (t : task W3Contract) (e : exn) :
  queued self ts -> In t ts ->
  result w3call (apply_task t) = inl e ->
  fst (process_tasks self) = AsyncBatchProcessor_init (limit self) /\
  always w3call (snd (process_tasks self)) (fun _ o => exists e', o = inl e').
Proof.
  intros Q I Ht.
  rewrite (process_tasks_queued Q) by (intros ->; contradiction).
  split; [reflexivity|]. cbn [snd].
  destruct (@collect_In_inl _ _
              (map (fun c0 : CO PV => result w3call c0) (map (@apply_task W3Contract) ts)) e)
    as [e' C].
  { rewrite map_map. apply in_map_iff. exists t. auto. }
  apply always_raises with (e := e'). simpl. now rewrite C.
Qed.

(** ** Failures the proxy does not catch *)


(** ** Bindings *)

Lemma always_Raise (A : Type) (e : exn) :
  always w3call (Raise e : CO A) (fun log o => o = inl e /\ log = []).
Proof.
  split.
  - exists [], [], (inl e). reflexivity.
  - intros sched log o R.
    destruct (@run_terminal _ w3call _ (Raise e : CO A) (inl e) o sched log eq_refl R)
      as (_ & -> & ->).
    auto.
Qed.

Lemma pair_info_binding_raises (address : PV) (e : exn) :
  eth_contract address pair_abi = inl e ->
  async_get_pair_info eth_contract address = Raise e.
Proof.
  intros H. unfold async_get_pair_info.
  change (_get_abi "pair") with (inr exn pair_abi).
  unfold raise_or at 1 2, ETHContractFunctions_init. now rewrite H.
Qed.

(** X7. The sentinel policy covers remote calls, not bindings: an
    exception of the contract constructor, a Web3Exception included, is
    raised as it is and before any remote call by [async_get_token_info],
    [async_get_pair_info], [get_pair_length] and [async_get_pairs]. *)
Theorem binding_errors_are_raised_before_any_call (address : PV) (e : exn) :
  (eth_contract address token_abi = inl e ->
   always w3call (async_get_token_info eth_contract address)
          (fun log o => o = inl e /\ log = [])) /\
  (eth_contract address pair_abi = inl e ->
   always w3call (async_get_pair_info eth_contract address)
          (fun log o => o = inl e /\ log = [])) /\
  (eth_contract address pair_factory_abi = inl e ->
   always w3call (get_pair_length eth_contract address)
          (fun log o => o = inl e /\ log = []) /\
   forall (self : Contract W3Contract) (L : Z),
     always w3call (async_get_pairs eth_contract self address L)
            (fun log o => o = inl e /\ log = [])).
Proof.
  split; [|split].
  - intros H.
    assert (E : async_get_token_info eth_contract address = Raise e).
    { unfold async_get_token_info.
      change (_get_abi "token") with (inr exn token_abi).
      unfold raise_or, ETHContractFunctions_init. now rewrite H. }
    rewrite E. apply always_Raise.
  - intros H.
    assert (E : async_get_pair_info eth_contract address = Raise e).
    { unfold async_get_pair_info.
      change (_get_abi "pair") with (inr exn pair_abi).
      unfold raise_or at 1 2, ETHContractFunctions_init. now rewrite H. }
    rewrite E. apply always_Raise.
  - intros H. split.
    + assert (E : get_pair_length eth_contract address = Raise e).
      { unfold get_pair_length.
        change (_get_abi "pair_factory") with (inr exn pair_factory_abi).
        unfold raise_or, ETHContractFunctions_init. now rewrite H. }
      rewrite E. apply always_Raise.
    + intros self L.
      assert (E : async_get_pairs eth_contract self address L = Raise e).
      { unfold async_get_pairs.
        change (_get_abi "pair_factory") with (inr exn pair_factory_abi).
        unfold raise_or at 1 2, ETHContractFunctions_init. now rewrite H. }
      rewrite E. apply always_Raise.
Qed.

Lemma fetch_head (fc : ETHContractFunctions W3Contract) (uint factory_address : PV) :
  async_get_pair_by_index eth_contract (VObj fc) uint factory_address
  = Call (contract fc) "allPairs" [uint]
         (fun o =>
            bind (match o with
                  | inr v => Ret v
                  | inl e => if is_Web3Exception e then Ret (VStr "NotFound") else Raise e
                  end)
                 (fun pair_address =>
                    bind (async_get_pair_info eth_contract pair_address)
                         (fun pair_info =>
    raise_or (subscript pair_info "token0") (fun a0 =>
    raise_or (subscript pair_info "token1") (fun a1 =>
    Gather [async_get_token_info eth_contract a0; async_get_token_info eth_contract a1]
           (fun both =>
    raise_or (unpack2 both) (fun '(token0, token1) =>
    raise_or (subscript pair_info "pair_name") (fun f2 =>
    raise_or (subscript pair_info "token0") (fun f3 =>
    raise_or (subscript pair_info "token1") (fun f5 =>
    Ret (VDict [ ("pair_address", pair_address);
                 ("pair_name", f2);
                 ("token0_address", f3);
                 ("token0_name", token0);
                 ("token1_address", f5);
                 ("token1_name", token1) ]))))))))))).
Proof. reflexivity. Qed.

Lemma bind_proxied (A : Type) (o : exn + PV) (v : PV) (K : PV -> CO A) :
  proxied o = inr v ->
  bind (match o with
        | inr v0 => Ret v0
        | inl e => if is_Web3Exception e then Ret (VStr "NotFound") else Raise e
        end) K
  = K v.
Proof.
  destruct o as [e|v0]; simpl.
  - destruct (is_Web3Exception e); [|discriminate]. now intros [= <-].
  - now intros [= <-].
Qed.

(** X8. When the binding of the pair contract raises, be it at a pair
    address the factory returned or at the sentinel that replaced a failed
    allPairs, the fetch raises that exception after the single allPairs
    call: no record is produced for the index. *)
Theorem fetch_raises_when_the_pair_binding_raises
        (fc : ETHContractFunctions W3Contract) (uint factory_address : PV) (e : exn) :
  recoverable (w3call (contract fc) "allPairs" [uint]) = true ->
  eth_contract (degrade (w3call (contract fc) "allPairs" [uint])) pair_abi = inl e ->
  always w3call (async_get_pair_by_index eth_contract (VObj fc) uint factory_address)
         (fun log o => o = inl e /\ log = [EvCall (contract fc) "allPairs" [uint]]).
Proof.
  intros Rc Hb. rewrite fetch_head.
  match goal with
  | |- always _ (Call _ _ _ ?k) _ =>
      assert (K : k (w3call (contract fc) "allPairs" [uint]) = Raise e)
  end.
  { rewrite (bind_proxied _ _ (proxied_degrade _ Rc)).
    rewrite (pair_info_binding_raises Hb). reflexivity. }
  pose proof (@sent_recoverable _ w3call _ _ _ Rc) as S.
  split.
  - exists [Fire], [EvCall (contract fc) "allPairs" [uint]], (inl e).
    unfold run. cbn [exec step_at]. rewrite K, S. reflexivity.
  - intros sched log o R.
    apply run_Call in R. destruct R as (sched' & log' & -> & -> & R).
    rewrite K in R. rewrite S.
    destruct (@run_terminal _ w3call _ (Raise e) (inl e) o sched' log' eq_refl R)
      as (_ & -> & ->).
    auto.
Qed.

(** ** get_pair_length *)

(** X9. Bound to a factory, [get_pair_length] makes the one
    allPairsLength() call and returns what it returned; when that call
    fails remotely it returns the string "NotFound", not a number and not an
    exception. *)
Theorem get_pair_length_returns_length_or_sentinel
        (factory_address : PV) (c : W3Contract) :
  eth_contract factory_address pair_factory_abi = inr c ->
  recoverable (w3call c "allPairsLength" []) = true ->
  always w3call (get_pair_length eth_contract factory_address)
         (fun log o => o = inr (degrade (w3call c "allPairsLength" [])) /\
                       log = [EvCall c "allPairsLength" []]).
Proof.
  intros Hc Rc.
  assert (E : get_pair_length eth_contract factory_address
              = __call__ (mk_ETHContractFunctions c) "allPairsLength" []).
  { unfold get_pair_length.
    change (_get_abi "pair_factory") with (inr exn pair_factory_abi).
    unfold raise_or, ETHContractFunctions_init. now rewrite Hc. }
  rewrite E.
  apply (@always_call_returned _ w3call (mk_ETHContractFunctions c)).
  rewrite result_call. now apply proxied_degrade.
Qed.

(** ** The fan-out of async_get_pair_info *)

Lemma pair_info_body (pair_address : PV) (pc : W3Contract) :
  eth_contract pair_address pair_abi = inr pc ->
  async_get_pair_info eth_contract pair_address
  = Gather [ __call__ (mk_ETHContractFunctions pc) "name" [];
             __call__ (mk_ETHContractFunctions pc) "token0" [];
             __call__ (mk_ETHContractFunctions pc) "token1" [] ]
           (fun pair_info =>
              raise_or (index pair_info 0) (fun v0 =>
              raise_or (index pair_info 1) (fun v1 =>
              raise_or (index pair_info 2) (fun v2 =>
              Ret (VDict [("pair_name", v0); ("token0", v1); ("token1", v2)]))))).
Proof.
  intros H. unfold async_get_pair_info.
  change (_get_abi "pair") with (inr exn pair_abi).
  unfold raise_or at 1 2, ETHContractFunctions_init. now rewrite H.
Qed.

Lemma events_async_get_pair_info (pair_address : PV) (pc : W3Contract) :
  eth_contract pair_address pair_abi = inr pc ->
  events w3call (async_get_pair_info eth_contract pair_address)
  = sent w3call pc "name" [] ++ sent w3call pc "token0" [] ++ sent w3call pc "token1" [].
Proof.
  intros H. rewrite (pair_info_body H).
  cbn [events map List.concat]. rewrite !events_call. cbn [contract].
  rewrite <- !app_assoc. cbn [app]. do 2 f_equal.
  rewrite <- app_nil_r. f_equal.
  destruct (collect _) as [e|vs]; [reflexivity|].
  destruct vs as [|v0 [|v1 [|v2 vs]]]; reflexivity.
Qed.


(** ** The stages of a fetch *)

Lemma run_cons (A : Type) (p : pick) (sched : list pick) (c : CO A)
      (log : list EV) (o : exn + A) :
  run w3call (p :: sched) c = Some (log, o) ->
  exists ev c1 log1,
    step_at w3call p c = Some (ev, c1) /\
    run w3call sched c1 = Some (log1, o) /\
    log = ev ++ log1.
Proof.
  unfold run. simpl.
  destruct (step_at w3call p c) as [[ev c1]|]; [|discriminate].
  destruct (exec w3call sched c1) as [[log1 c2]|] eqn:X; [|discriminate].
  destruct (terminal c2) as [o'|] eqn:T; [|discriminate].
  intros [= <- <-]. exists ev, c1, log1. rewrite X, T. repeat split; reflexivity.
Qed.

Lemma run_Raise (A : Type) (e : exn) (sched : list pick) (log : list EV) (v : A) :
  run w3call sched (Raise e : CO A) = Some (log, inr v) -> False.
Proof.
  intros R.
  destruct (@run_terminal _ w3call _ (Raise e : CO A) (inl e) (inr v) sched log eq_refl R)
    as (_ & _ & E).
  discriminate.
Qed.

Lemma run_Ret (A : Type) (a : A) (sched : list pick) (log : list EV) (o : exn + A) :
  run w3call sched (Ret a : CO A) = Some (log, o) -> log = [] /\ o = inr a.
Proof.
  intros R.
  destruct (@run_terminal _ w3call _ (Ret a : CO A) (inr a) o sched log eq_refl R)
    as (_ & -> & ->).
  auto.
Qed.

(** A gather that returns has run all its children, whose events are all
    logged before the continuation starts. *)
Lemma run_Gather_returns (A : Type) (k : list PV -> CO A) (sched : list pick) :
  forall (cs : list (CO PV)) (log : list EV) (v : A),
    run w3call sched (Gather cs k) = Some (log, inr v) ->
    exists s1 s2 l1 l2 vs,
      sched = s1 ++ Fire :: s2 /\ log = l1 ++ l2 /\
      collect (map (fun c0 : CO PV => result w3call c0) cs) = inr vs /\
      Permutation (List.concat (map (fun c0 => events w3call c0) cs)) l1 /\
      run w3call s2 (k vs) = Some (l2, inr v).
Proof.
  induction sched as [|p sched IH]; intros cs log v R.
  - discriminate.
  - apply run_cons in R. destruct R as (ev & c1 & log1 & S & R & ->).
    destruct p as [| i | i p]; simpl in S.
    + destruct (sequence_opt _) as [vs|] eqn:E; [|discriminate].
      injection S as <- <-.
      exists [], sched, [], log1, vs.
      rewrite (all_returned _ E), collect_returned, events_returned.
      repeat split; auto.
    + destruct (nth_error cs i) as [ci|]; [|discriminate].
      destruct (raised ci); [|discriminate].
      injection S as <- <-. now apply run_Raise in R.
    + destruct (nth_error cs i) as [ci|] eqn:N; [|discriminate].
      destruct (step_at w3call p ci) as [[ev' ci']|] eqn:S'; [|discriminate].
      injection S as <- <-.
      destruct (IH _ _ _ R) as (s1 & s2 & l1 & l2 & vs & -> & -> & C & P & R2).
      pose proof (@collect_update _ w3call cs i ci ci' N (step_at_value _ _ _ S')) as V.
      rewrite C in V.
      assert (C0 : collect (map (fun c0 : CO PV => result w3call c0) cs) = inr vs).
      { destruct (collect (map _ cs)); simpl in V; [discriminate | now injection V as ->]. }
      assert (Vi : to_opt (result w3call ci) <> None).
      { apply sequence_opt_nth with
          (l := map (@to_opt exn PV) (map (fun c0 : CO PV => result w3call c0) cs))
          (xs := vs) (i := i).
        - rewrite <- collect_to_opt, C0. reflexivity.
        - rewrite !nth_error_map, N. reflexivity. }
      exists (Inside i p :: s1), s2, (ev' ++ l1), l2, vs.
      repeat split; auto.
      * now rewrite app_assoc.
      * rewrite (@concat_events_update _ w3call cs i ci ci' ev' N
                   (step_at_events _ _ _ S' Vi)).
        now apply Permutation_app_head.
Qed.

Lemma bind_not_proxied (A : Type) (o : exn + PV) (e : exn) (K : PV -> CO A) :
  proxied o = inl e ->
  bind (match o with
        | inr v0 => Ret v0
        | inl e0 => if is_Web3Exception e0 then Ret (VStr "NotFound") else Raise e0
        end) K
  = Raise e.
Proof.
  destruct o as [e0|v0]; simpl; [|discriminate].
  destruct (is_Web3Exception e0); [discriminate|]. now intros [= <-].
Qed.

Lemma token_info_body (token_address : PV) :
  async_get_token_info eth_contract token_address
  = match eth_contract token_address token_abi with
    | inl e => Raise e
    | inr c => __call__ (mk_ETHContractFunctions c) "name" []
    end.
Proof.
  unfold async_get_token_info.
  change (_get_abi "token") with (inr exn token_abi).
  unfold raise_or, ETHContractFunctions_init.
  now destruct (eth_contract token_address token_abi).
Qed.

Lemma fetch_run_stages
        (fc : ETHContractFunctions W3Contract) (uint factory_address r : PV)
        (sched : list pick) (log : list EV) :
  run w3call sched (async_get_pair_by_index eth_contract (VObj fc) uint factory_address)
  = Some (log, inr r) ->
  exists pa pc a0 a1 t0 t1 l2 l3,
    proxied (w3call (contract fc) "allPairs" [uint]) = inr pa /\
    eth_contract pa pair_abi = inr pc /\
    proxied (w3call pc "token0" []) = inr a0 /\
    proxied (w3call pc "token1" []) = inr a1 /\
    eth_contract a0 token_abi = inr t0 /\
    eth_contract a1 token_abi = inr t1 /\
    log = EvCall (contract fc) "allPairs" [uint] :: l2 ++ l3 /\
    Permutation [EvCall pc "name" []; EvCall pc "token0" []; EvCall pc "token1" []] l2 /\
    Permutation [EvCall t0 "name" []; EvCall t1 "name" []] l3.
Proof.
  intros H. rewrite fetch_head in H.
  apply run_Call in H. destruct H as (s' & log' & -> & -> & H).
  destruct (proxied (w3call (contract fc) "allPairs" [uint])) as [e|pa] eqn:Px.
  { rewrite (bind_not_proxied _ _ Px) in H. now apply run_Raise in H. }
  rewrite (bind_proxied _ _ Px) in H.
  rewrite (@sent_recoverable _ w3call _ _ _ (proxied_recoverable _ Px)). cbn [app].
  destruct (eth_contract pa pair_abi) as [e|pc] eqn:Hb.
  { rewrite (pair_info_binding_raises Hb) in H. now apply run_Raise in H. }
  rewrite (pair_info_body Hb) in H. cbn [bind] in H.
  apply run_Gather_returns in H.
  destruct H as (s1 & s2 & l1 & l2 & vs & -> & -> & C & P1 & H).
  cbn [map List.concat] in P1. rewrite !events_call in P1. cbn [contract] in P1.
  cbn [map collect] in C. rewrite !result_call in C. cbn [contract] in C.
  destruct (proxied (w3call pc "name" [])) as [e|pn] eqn:Pn; [discriminate|].
  destruct (proxied (w3call pc "token0" [])) as [e|a0] eqn:P0; [discriminate|].
  destruct (proxied (w3call pc "token1" [])) as [e|a1] eqn:P1'; [discriminate|].
  injection C as <-.
  rewrite (@sent_recoverable _ w3call _ _ _ (proxied_recoverable _ Pn)),
    (@sent_recoverable _ w3call _ _ _ (proxied_recoverable _ P0)),
    (@sent_recoverable _ w3call _ _ _ (proxied_recoverable _ P1')) in P1.
  cbn [app] in P1.
  cbn [index nth_error raise_or bind subscript assoc String.eqb Ascii.eqb Bool.eqb] in H.
  apply run_Gather_returns in H.
  destruct H as (s3 & s4 & l3 & l4 & vs2 & -> & -> & C2 & P2 & H).
  cbn [map List.concat collect] in C2, P2.
  rewrite !token_info_body in C2, P2.
  destruct (eth_contract a0 token_abi) as [e|t0] eqn:B0; [discriminate|].
  rewrite result_call in C2. rewrite events_call in P2. cbn [contract] in C2, P2.
  destruct (proxied (w3call t0 "name" [])) as [e|n0] eqn:N0; [discriminate|].
  destruct (eth_contract a1 token_abi) as [e|t1] eqn:B1; [discriminate|].
  rewrite result_call in C2. rewrite events_call in P2. cbn [contract] in C2, P2.
  destruct (proxied (w3call t1 "name" [])) as [e|n1] eqn:N1; [discriminate|].
  injection C2 as <-.
  rewrite (@sent_recoverable _ w3call _ _ _ (proxied_recoverable _ N0)),
    (@sent_recoverable _ w3call _ _ _ (proxied_recoverable _ N1)) in P2.
  cbn [app] in P2.
  cbn [unpack2 raise_or subscript assoc String.eqb Ascii.eqb Bool.eqb] in H.
  apply run_Ret in H. destruct H as [-> _].
  exists pa, pc, a0, a1, t0, t1, l1, l3.
  rewrite app_nil_r. repeat split; auto.
Qed.

(** X11. The three stages of a fetch are strictly ordered under every
    schedule.  The log of any run that returns a record is the allPairs
    call, then the three calls on the pair contract in some order, then the
    two name() calls on the token contracts in some order: six remote calls,
    and no token is asked for its name before both token addresses are
    known. *)
Theorem fetch_stages_are_ordered
        (fc : ETHContractFunctions W3Contract) (uint factory_address r : PV)
        (sched : list pick) (log : list EV) :
  run w3call sched (async_get_pair_by_index eth_contract (VObj fc) uint factory_address)
  = Some (log, inr r) ->
  exists pa pc a0 a1 t0 t1 l2 l3,
    proxied (w3call (contract fc) "allPairs" [uint]) = inr pa /\
    eth_contract pa pair_abi = inr pc /\
    proxied (w3call pc "token0" []) = inr a0 /\
    proxied (w3call pc "token1" []) = inr a1 /\
    eth_contract a0 token_abi = inr t0 /\
    eth_contract a1 token_abi = inr t1 /\
    log = EvCall (contract fc) "allPairs" [uint] :: l2 ++ l3 /\
    Permutation [EvCall pc "name" []; EvCall pc "token0" []; EvCall pc "token1" []] l2 /\
    Permutation [EvCall t0 "name" []; EvCall t1 "name" []] l3.
Proof.
  apply fetch_run_stages.
Qed.

(** ** to_dataframe *)

Lemma row_append_head (pa pn a0 n0 a1 n1 : PV) (df : DataFrame W3Contract) (i : nat) :
  row (_append (mk_DataFrame [pa] [pn] [a0] [n0] [a1] [n1]) df) (S i) = row df i.
Proof. reflexivity. Qed.

(** X12. The frame built from a list of records has one row per
    record, in the order of the list, and row [i] read back across the six
    columns is record [i]: nothing is lost or reordered. *)
Theorem frame_rows_are_the_records (rs : list PV) :
  Forall (@is_record W3Contract) rs ->
  exists df,
    to_dataframe (VList rs) = inr df /\
    rows df = List.length rs /\
    forall i, row df i = nth_error rs i.
Proof.
  induction 1 as [|r rs (pa & pn & a0 & n0 & a1 & n1 & ->) _ (df & T & N & R)].
  - exists empty_DataFrame. repeat split. now intros [|i].
  - exists (_append (mk_DataFrame [pa] [pn] [a0] [n0] [a1] [n1]) df).
    split; [|split].
    + apply (to_dataframe_app [PairRecord pa pn a0 n0 a1 n1] rs); auto.
    + unfold rows in *. simpl. now rewrite N.
    + intros [|i]; [reflexivity|]. rewrite row_append_head. apply R.
Qed.

Lemma collect_app_inv (E T : Type) (a b : list (E + T)) (xs : list T) :
  collect (a ++ b) = inr xs ->
  exists ca cb, collect a = inr ca /\ collect b = inr cb /\ xs = ca ++ cb.
Proof.
  revert xs; induction a as [|[e|x] a IH]; simpl; intros xs H.
  - exists [], xs. auto.
  - discriminate.
  - destruct (collect (a ++ b)) as [e|ys] eqn:C; [discriminate|].
    injection H as <-.
    destruct (IH ys eq_refl) as (ca & cb & -> & -> & ->).
    exists (x :: ca), cb. auto.
Qed.

Lemma column_app_inv (key : string) (a b c : list PV) :
  column key (a ++ b) = inr c ->
  exists ca cb, column key a = inr ca /\ column key b = inr cb /\ c = ca ++ cb.
Proof.
  unfold column. rewrite map_app. apply collect_app_inv.
Qed.

(** X13. Building the frame commutes with concatenation: the frame
    of two lists of results one after the other exists exactly when the
    frame of each exists, and is then the first with the second appended.
    This is why appending batch by batch gives the frame of all results. *)
Theorem frame_of_concatenated_results (a b : list PV) (df : DataFrame W3Contract) :
  to_dataframe (VList (a ++ b)) = inr df <->
  exists da db,
    to_dataframe (VList a) = inr da /\ to_dataframe (VList b) = inr db /\
    df = _append da db.
Proof.
  split.
  - rewrite to_dataframe_columns. intros (C1 & C2 & C3 & C4 & C5 & C6).
    apply column_app_inv in C1, C2, C3, C4, C5, C6.
    destruct C1 as (a1 & b1 & A1 & B1 & E1), C2 as (a2 & b2 & A2 & B2 & E2),
             C3 as (a3 & b3 & A3 & B3 & E3), C4 as (a4 & b4 & A4 & B4 & E4),
             C5 as (a5 & b5 & A5 & B5 & E5), C6 as (a6 & b6 & A6 & B6 & E6).
    exists (mk_DataFrame a1 a2 a3 a4 a5 a6), (mk_DataFrame b1 b2 b3 b4 b5 b6).
    rewrite !to_dataframe_columns. simpl. repeat split; auto.
    destruct df. simpl in *. unfold _append. simpl. congruence.
  - intros (da & db & Ta & Tb & ->). now apply to_dataframe_app.
Qed.

Lemma column_error (key : string) (ds : list PV) (e : exn) :
  Forall (fun d : PV => exists kv, d = VDict kv) ds ->
  column key ds = inl e ->
  e = KeyError key /\ exists kv, In (VDict kv) ds /\ assoc key kv = None.
Proof.
  unfold column. induction 1 as [|d ds (kv & ->) _ IH]; simpl; [discriminate|].
  destruct (assoc key kv) as [v|] eqn:A.
  - destruct (collect _) as [e'|xs]; [|discriminate].
    intros [= <-]. destruct (IH eq_refl) as (-> & kv' & I & A').
    split; [reflexivity|]. exists kv'. auto.
  - intros [= <-]. split; [reflexivity|]. exists kv. auto.
Qed.

Lemma column_values (key : string) (ds : list PV) :
  Forall (fun d : PV => exists v, subscript d key = inr v) ds ->
  exists c, column key ds = inr c.
Proof.
  unfold column. induction 1 as [|d ds (v & Hv) _ (c & IH)]; simpl.
  - eauto.
  - rewrite Hv, IH. eauto.
Qed.

(** X14. [to_dataframe] reads the six column keys of each result and
    nothing else.  It succeeds on every list whose elements answer those
    six keys, whatever other keys they hold; on a list of dictionaries it
    fails only with the KeyError of a column key that one of them lacks. *)
Theorem frame_needs_the_six_keys (ds : list PV) :
  (Forall (fun d : PV => forall key, In key column_names ->
                                     exists v, subscript d key = inr v) ds ->
   exists df, to_dataframe (VList ds) = inr df) /\
  (Forall (fun d : PV => exists kv, d = VDict kv) ds ->
   forall e, to_dataframe (VList ds) = inl e ->
             exists key kv,
               In key column_names /\ In (VDict kv) ds /\ assoc key kv = None /\
               e = KeyError key).
Proof.
  split.
  - intros F.
    assert (C : forall key, In key column_names -> exists c, column key ds = inr c).
    { intros key I. apply column_values.
      apply Forall_impl with (2 := F). intros d H. now apply H. }
    destruct (C "pair_address") as [c1 E1]; [simpl; tauto|].
    destruct (C "pair_name") as [c2 E2]; [simpl; tauto|].
    destruct (C "token0_address") as [c3 E3]; [simpl; tauto|].
    destruct (C "token0_name") as [c4 E4]; [simpl; tauto|].
    destruct (C "token1_address") as [c5 E5]; [simpl; tauto|].
    destruct (C "token1_name") as [c6 E6]; [simpl; tauto|].
    exists (mk_DataFrame c1 c2 c3 c4 c5 c6).
    rewrite to_dataframe_columns. simpl. repeat split; assumption.
  - intros D e. unfold to_dataframe. cbn [iterate].
    assert (K : forall key, In key column_names -> column key ds = inl e ->
                            exists key0 kv,
                              In key0 column_names /\ In (VDict kv) ds /\
                              assoc key0 kv = None /\ e = KeyError key0).
    { intros key I H. destruct (column_error key D H) as (-> & kv & Ik & A).
      exists key, kv. auto. }
    destruct (column "pair_address" ds) eqn:E1;
      [intros [= ->]; apply (K "pair_address"); [simpl; tauto | assumption]|].
    destruct (column "pair_name" ds) eqn:E2;
      [intros [= ->]; apply (K "pair_name"); [simpl; tauto | assumption]|].
    destruct (column "token0_address" ds) eqn:E3;
      [intros [= ->]; apply (K "token0_address"); [simpl; tauto | assumption]|].
    destruct (column "token0_name" ds) eqn:E4;
      [intros [= ->]; apply (K "token0_name"); [simpl; tauto | assumption]|].
    destruct (column "token1_address" ds) eqn:E5;
      [intros [= ->]; apply (K "token1_address"); [simpl; tauto | assumption]|].
    destruct (column "token1_name" ds) eqn:E6;
      [intros [= ->]; apply (K "token1_name"); [simpl; tauto | assumption]|].
    discriminate.
Qed.

(** ** The table and the batch limit *)

Lemma add_task_small_limit (L : Z) (f : pyfunc W3Contract) (a : list PV)
      (k : list (string * PV)) :
  L <= 1 ->
  add_task (AsyncBatchProcessor_init L) f a k
  = (AsyncBatchProcessor_init L, Gather [f a k] (fun vs => Ret (VList vs))).
Proof.
  intros HL. rewrite add_task_reached by (simpl; lia).
  now rewrite (@process_tasks_queued _ _ [(f, a, k)]).
Qed.

Lemma result_pairs_loop_small_limit
      (L : Z) (cf : ETHContractFunctions W3Contract) (idxs : list Z) :
  L <= 1 ->
  forall self : Contract W3Contract,
    result w3call (pairs_loop eth_contract self (AsyncBatchProcessor_init L) cf idxs)
    = result w3call (pairs_loop eth_contract self (AsyncBatchProcessor_init 1) cf idxs).
Proof.
  intros HL. induction idxs as [|i rest IH]; intros self.
  - reflexivity.
  - cbn [pairs_loop].
    rewrite (add_task_small_limit _ _ _ HL), (add_task_small_limit (L := 1)) by lia.
    rewrite !result_bind.
    destruct (result w3call (Gather _ _)) as [e|results]; [reflexivity|].
    destruct (truthy results); [|apply IH].
    destruct (to_dataframe results) as [e|df]; [reflexivity|].
    destruct (len results) as [e|n]; [reflexivity|].
    cbn [raise_or result]. apply IH.
Qed.

Lemma result_async_get_pairs (self : Contract W3Contract) (factory_address : PV)
      (L : Z) (N : nat) (c : W3Contract) :
  eth_contract factory_address pair_factory_abi = inr c ->
  w3call c "allPairsLength" [] = inr (VInt (Z.of_nat N)) ->
  result w3call (async_get_pairs eth_contract self factory_address L)
  = result w3call (pairs_loop eth_contract self (AsyncBatchProcessor_init L)
                              (mk_ETHContractFunctions c) (map Z.of_nat (seq 0 N))) /\
  events w3call (async_get_pairs eth_contract self factory_address L)
  = EvCall c "allPairsLength" []
    :: events w3call (pairs_loop eth_contract self (AsyncBatchProcessor_init L)
                                 (mk_ETHContractFunctions c) (map Z.of_nat (seq 0 N))).
Proof.
  intros Hc Hn. rewrite (@async_get_pairs_start _ eth_contract self factory_address L c Hc).
  cbn [result events].
  rewrite (@sent_recoverable _ w3call c "allPairsLength" []) by now rewrite Hn.
  rewrite Hn. cbn [bind range raise_or app].
  now rewrite Nat2Z.id.
Qed.

(** X15. The table does not depend on the batch limit, and a run
    never resets it.  When the fetch of each index returns its record, the
    run ends, for every limit (zero and negative limits included) and
    every starting frame, with the rows that were already in
    [self.result_df] followed by the rows of the records 0..N-1: a second
    run on the same object appends a second copy. *)
Theorem table_is_appended_whatever_the_limit
        (factory_address : PV) (N : nat) (c : W3Contract) (rec : nat -> PV) :
  eth_contract factory_address pair_factory_abi = inr c ->
  w3call c "allPairsLength" [] = inr (VInt (Z.of_nat N)) ->
  (forall i, (i < N)%nat ->
             result w3call (async_get_pair_by_index eth_contract
                              (VObj (mk_ETHContractFunctions c))
                              (VInt (Z.of_nat i)) VNone) = inr (rec i)) ->
  exists df,
    to_dataframe (VList (map rec (seq 0 N))) = inr df /\
    forall (L : Z) (self : Contract W3Contract),
      always w3call (async_get_pairs eth_contract self factory_address L)
             (fun _ o => o = inr (mk_Contract (_append (result_df self) df), VNone)).
Proof.
  intros Hc Hn H.
  assert (Hi : forall i, In i ([] ++ seq 0 N) ->
                         result w3call (async_get_pair_by_index eth_contract
                                          (VObj (mk_ETHContractFunctions c))
                                          (VInt (Z.of_nat i)) VNone) = inr (rec i)).
  { intros i I. apply H. simpl in I. apply in_seq in I. lia. }
  assert (S : forall (L : nat) (self : Contract W3Contract),
             (1 <= L)%nat ->
             exists df,
               to_dataframe (VList (map rec (seq 0 N))) = inr df /\
               result w3call (pairs_loop eth_contract self
                                         (AsyncBatchProcessor_init (Z.of_nat L))
                                         (mk_ETHContractFunctions c)
                                         (map Z.of_nat (seq 0 N)))
               = inr (mk_Contract (_append (result_df self) df), VNone)).
  { intros L self HL.
    destruct (@pairs_loop_spec _ eth_contract w3call L (mk_ETHContractFunctions c) rec HL
                (seq 0 N) [] self (AsyncBatchProcessor_init (Z.of_nat L)))
      as (df & T & _ & R & _);
      [now repeat split | reflexivity | simpl; lia | exact Hi |].
    exists df. auto. }
  destruct (S 1%nat Contract_init (le_n 1)) as (df & T & _).
  exists df. split; [exact T|].
  intros L self.
  assert (R : result w3call (async_get_pairs eth_contract self factory_address L)
              = inr (mk_Contract (_append (result_df self) df), VNone)).
  { rewrite (proj1 (result_async_get_pairs self L N Hc Hn)).
    destruct (Z_le_gt_dec L 1) as [Le|Gt].
    - rewrite (result_pairs_loop_small_limit _ _ Le).
      destruct (S 1%nat self (le_n 1)) as (df' & T' & R').
      rewrite T in T'. injection T' as <-. exact R'.
    - destruct (S (Z.to_nat L) self) as (df' & T' & R'); [lia|].
      rewrite Z2Nat.id in R' by lia.
      rewrite T in T'. injection T' as <-. exact R'. }
  apply always_weaken with (1 := always_returns _ _ R). now intros log o [-> _].
Qed.

(** ** The number of remote calls *)

Local Notation fetch cf n :=
  (async_get_pair_by_index eth_contract (VObj cf) (VInt (Z.of_nat n)) VNone).

Local Notation fetch_tuple cf n :=
  (async_get_pair_by_index_func eth_contract,
   [VObj cf; VInt (Z.of_nat n)],
   @nil (string * PV)).

Local Notation batch cf pend :=
  (Gather (map (@apply_task W3Contract) (map (fun n : nat => fetch_tuple cf n) pend))
          (fun vs => Ret (VList vs))).

Lemma calls_app (l l' : list EV) : calls (l ++ l') = calls l ++ calls l'.
Proof.
  induction l as [|[c fn a|s] l IH]; simpl; auto. now rewrite IH.
Qed.

Lemma Permutation_calls (l l' : list EV) :
  Permutation l l' -> Permutation (calls l) (calls l').
Proof.
  induction 1 as [| x l l' _ IH | x y l | l l' l'' _ IH1 _ IH2]; simpl.
  - constructor.
  - destruct x; auto.
  - destruct x, y; auto. apply perm_swap.
  - now rewrite IH1.
Qed.

Lemma fetch_calls (cf : ETHContractFunctions W3Contract) (uint factory_address r : PV) :
  result w3call (async_get_pair_by_index eth_contract (VObj cf) uint factory_address)
  = inr r ->
  List.length (calls (events w3call
                        (async_get_pair_by_index eth_contract (VObj cf) uint
                                                 factory_address))) = 6%nat.
Proof.
  intros R.
  pose proof (run_schedule w3call
                (async_get_pair_by_index eth_contract (VObj cf) uint factory_address)) as S.
  rewrite R in S.
  destruct (fetch_run_stages _ _ _ _ S)
    as (pa & pc & a0 & a1 & t0 & t1 & l2 & l3 & _ & _ & _ & _ & _ & _ & E & P2 & P3).
  rewrite E. cbn [calls List.length]. rewrite calls_app, length_app.
  apply Permutation_calls, Permutation_length in P2, P3.
  simpl in P2, P3. rewrite <- P2, <- P3. reflexivity.
Qed.

Lemma batch_calls (cf : ETHContractFunctions W3Contract) (rec : nat -> PV) (pend : list nat) :
  (forall i, In i pend -> result w3call (fetch cf i) = inr (rec i)) ->
  List.length (calls (events w3call (batch cf pend : CO PV))) = (6 * List.length pend)%nat.
Proof.
  intros H. cbn [events].
  assert (T : forall X : exn + list PV,
             match X with inl _ => @nil EV | inr _ => [] end = []) by (now intros []).
  rewrite T, app_nil_r, !map_map. clear T.
  induction pend as [|i pend IH]; [reflexivity|].
  cbn [map List.concat List.length]. rewrite calls_app, length_app.
  change (apply_task (fetch_tuple cf i)) with (fetch cf i).
  rewrite (fetch_calls _ _ _ (H i (or_introl eq_refl))), IH; [lia|].
  intros j Hj. apply H. now right.
Qed.

Lemma pairs_loop_calls (L : nat) (cf : ETHContractFunctions W3Contract) (rec : nat -> PV) :
  (1 <= L)%nat ->
  forall (idxs pend : list nat) (self : Contract W3Contract)
         (processor : AsyncBatchProcessor W3Contract),
    queued processor (map (fun n : nat => fetch_tuple cf n) pend) ->
    limit processor = Z.of_nat L ->
    (List.length pend < L)%nat ->
    (forall i, In i (pend ++ idxs) -> result w3call (fetch cf i) = inr (rec i)) ->
    List.length (calls (events w3call
                          (pairs_loop eth_contract self processor cf (map Z.of_nat idxs))))
    = (6 * (List.length pend + List.length idxs))%nat.
Proof.
  intros HL. induction idxs as [|i rest IH]; intros pend self processor Q Hl B H.
  - rewrite app_nil_r in H. cbn [map pairs_loop List.length]. rewrite Nat.add_0_r.
    destruct pend as [|p pend].
    + rewrite process_tasks_empty by apply Q. reflexivity.
    + rewrite (process_tasks_queued Q) by discriminate.
      rewrite events_bind, calls_app, length_app.
      rewrite (batch_calls cf rec (p :: pend) H).
      rewrite (result_batch eth_contract w3call cf rec (p :: pend) H).
      destruct (to_dataframe_records (records_batch eth_contract w3call cf rec (p :: pend) H))
        as (df & T & _).
      cbn [truthy map] in T |- *. rewrite T. cbn. lia.
  - cbn [map pairs_loop].
    pose proof (queued_append (async_get_pair_by_index_func eth_contract)
                  [VObj cf; VInt (Z.of_nat i)] [] Q) as Q1.
    pose proof (queued_length Q1) as N1.
    rewrite length_app, length_map in N1.
    change (List.length [fetch_tuple cf i]) with 1%nat in N1.
    change (map (fun n : nat => fetch_tuple cf n) pend ++ [fetch_tuple cf i])
      with (map (fun n : nat => fetch_tuple cf n) pend
            ++ map (fun n : nat => fetch_tuple cf n) [i]) in Q1.
    rewrite <- map_app in Q1.
    assert (Hb : forall j, In j (pend ++ [i]) -> result w3call (fetch cf j) = inr (rec j)).
    { intros j Hj. apply H. rewrite in_app_iff in *. simpl in *. tauto. }
    destruct (Nat.eq_dec (List.length pend + 1) L) as [E|E].
    + rewrite add_task_reached by lia.
      rewrite (process_tasks_queued Q1)
        by (destruct pend; discriminate).
      rewrite events_bind, calls_app, length_app.
      rewrite (batch_calls cf rec (pend ++ [i]) Hb).
      rewrite (result_batch eth_contract w3call cf rec (pend ++ [i]) Hb).
      destruct (to_dataframe_records
                  (records_batch eth_contract w3call cf rec (pend ++ [i]) Hb))
        as (dfb & Tb & _).
      assert (Tt : truthy (VList (map rec (pend ++ [i]))) = true).
      { rewrite map_app. destruct (map rec pend); reflexivity. }
      rewrite Tt, Tb. cbn [raise_or len events calls].
      rewrite (IH [] _ _); [rewrite length_app; simpl; lia | now repeat split | exact Hl
                            | simpl; lia |].
      intros j Hj. apply H. rewrite in_app_iff. simpl in *. tauto.
    + rewrite add_task_below by lia.
      cbn [bind truthy].
      rewrite (IH (pend ++ [i]) self _ Q1 Hl).
      * rewrite length_app. simpl. lia.
      * rewrite length_app. simpl. lia.
      * intros j Hj. apply H. now rewrite <- app_assoc in Hj.
Qed.

(** X16. A discovery costs one remote call for the length and six per
    pair.  When the fetch of each index returns its record, every complete
    run of [async_get_pairs] with a limit of at least one makes exactly
    1 + 6 N remote calls, whatever the limit and the schedule. *)
Theorem discovery_makes_six_calls_per_pair
        (self : Contract W3Contract) (factory_address : PV) (L N : nat)
        (c : W3Contract) (rec : nat -> PV) :
  (1 <= L)%nat ->
  eth_contract factory_address pair_factory_abi = inr c ->
  w3call c "allPairsLength" [] = inr (VInt (Z.of_nat N)) ->
  (forall i, (i < N)%nat ->
             result w3call (fetch (mk_ETHContractFunctions c) i) = inr (rec i)) ->
  always w3call (async_get_pairs eth_contract self factory_address (Z.of_nat L))
         (fun log o => (exists v, o = inr v) /\
                       List.length (calls log) = (1 + 6 * N)%nat).
Proof.
  intros HL Hc Hn H.
  assert (Hi : forall i, In i ([] ++ seq 0 N) ->
                         result w3call (fetch (mk_ETHContractFunctions c) i) = inr (rec i)).
  { intros i I. apply H. simpl in I. apply in_seq in I. lia. }
  destruct (result_async_get_pairs self (Z.of_nat L) N Hc Hn) as [Rs Es].
  destruct (@pairs_loop_spec _ eth_contract w3call L (mk_ETHContractFunctions c) rec HL
              (seq 0 N) [] self (AsyncBatchProcessor_init (Z.of_nat L)))
    as (df & _ & _ & R & _);
    [now repeat split | reflexivity | simpl; lia | exact Hi |].
  rewrite <- Rs in R.
  apply always_weaken with (1 := always_returns _ _ R).
  intros log o [-> P]. split; [eauto|].
  apply Permutation_calls, Permutation_length in P. rewrite <- P, Es.
  cbn [calls List.length]. f_equal.
  rewrite (@pairs_loop_calls L (mk_ETHContractFunctions c) rec HL (seq 0 N) [] self
             (AsyncBatchProcessor_init (Z.of_nat L)));
    [now rewrite length_seq | now repeat split | reflexivity | simpl; lia | exact Hi].
Qed.

(** ** A fetch that raises *)

Lemma batch_raises (cf : ETHContractFunctions W3Contract) (pend : list Z) (i : Z)
      (e : exn) :
  In i pend ->
  result w3call (async_get_pair_by_index eth_contract (VObj cf) (VInt i) VNone) = inl e ->
  exists e',
    result w3call (Gather (map (@apply_task W3Contract)
                               (map (fetch_task eth_contract cf) pend))
                          (fun vs => Ret (VList vs)) : CO PV) = inl e'.
Proof.
  intros I R.
  destruct (@collect_In_inl _ _
              (map (fun c0 : CO PV => result w3call c0)
                   (map (@apply_task W3Contract) (map (fetch_task eth_contract cf) pend)))
              e) as [e' C].
  { rewrite !map_map. apply in_map_iff. exists i. split; [exact R | exact I]. }
  exists e'. cbn [result]. now rewrite C.
Qed.

Lemma pairs_loop_raises (cf : ETHContractFunctions W3Contract) (i : Z) (e : exn) :
  result w3call (async_get_pair_by_index eth_contract (VObj cf) (VInt i) VNone) = inl e ->
  forall (idxs pend : list Z) (self : Contract W3Contract)
         (processor : AsyncBatchProcessor W3Contract),
    queued processor (map (fetch_task eth_contract cf) pend) ->
    In i (pend ++ idxs) ->
    exists e', result w3call (pairs_loop eth_contract self processor cf idxs) = inl e'.
Proof.
  intros R. induction idxs as [|j rest IH]; intros pend self processor Q I.
  - rewrite app_nil_r in I. cbn [pairs_loop].
    destruct pend as [|p pend]; [contradiction|].
    rewrite (process_tasks_queued Q) by discriminate.
    destruct (@batch_raises cf (p :: pend) i e I R) as [e' B].
    exists e'. now rewrite result_bind, B.
  - cbn [pairs_loop].
    pose proof (queued_append (async_get_pair_by_index_func eth_contract)
                  [VObj cf; VInt j] [] Q) as Q1.
    change (map (fetch_task eth_contract cf) pend
            ++ [(async_get_pair_by_index_func eth_contract, [VObj cf; VInt j], [])])
      with (map (fetch_task eth_contract cf) pend ++ map (fetch_task eth_contract cf) [j])
      in Q1.
    rewrite <- map_app in Q1.
    unfold add_task. destruct (Z.of_nat _ >=? _).
    + rewrite (process_tasks_queued Q1) by (destruct pend; discriminate).
      rewrite result_bind.
      destruct (result w3call (Gather _ _)) as [e0|results] eqn:B; [eauto|].
      assert (Ir : In i rest).
      { rewrite in_app_iff in I. destruct I as [I|[I|I]]; [| |exact I].
        - assert (Ib : In i (pend ++ [j])) by (apply in_or_app; now left).
          destruct (@batch_raises cf (pend ++ [j]) i e Ib R) as [e' B']. congruence.
        - assert (Ib : In i (pend ++ [j])) by (apply in_or_app; right; now left).
          destruct (@batch_raises cf (pend ++ [j]) i e Ib R) as [e' B']. congruence. }
      destruct (truthy results).
      * destruct (to_dataframe results) as [e1|df]; [cbn [raise_or result]; eauto|].
        destruct (len results) as [e1|n]; [cbn [raise_or result]; eauto|].
        cbn [raise_or result]. apply (IH []); [now repeat split | exact Ir].
      * apply (IH []); [now repeat split | exact Ir].
    + cbn [bind truthy]. apply (IH (pend ++ [j])); [exact Q1|].
      now rewrite <- app_assoc.
Qed.

(** X19. One fetch that raises aborts the whole discovery.  When the
    factory reports N pairs and the fetch of some index below N raises (a
    binding that raises, a call that fails outside the web3 hierarchy),
    [async_get_pairs] raises under every schedule and for every limit: no
    run returns, whatever the other fetches do. *)
Theorem discovery_raises_when_a_fetch_raises
        (self : Contract W3Contract) (factory_address : PV) (L : Z) (N : nat)
        (c : W3Contract) (i : nat) (e : exn) :
  eth_contract factory_address pair_factory_abi = inr c ->
  w3call c "allPairsLength" [] = inr (VInt (Z.of_nat N)) ->
  (i < N)%nat ->
  result w3call (fetch (mk_ETHContractFunctions c) i) = inl e ->
  always w3call (async_get_pairs eth_contract self factory_address L)
         (fun _ o => exists e', o = inl e').
Proof.
  intros Hc Hn Hi R.
  destruct (@pairs_loop_raises (mk_ETHContractFunctions c) (Z.of_nat i) e R
              (map Z.of_nat (seq 0 N)) [] self (AsyncBatchProcessor_init L))
    as [e' E].
  { now repeat split. }
  { apply in_map, in_seq. lia. }
  apply always_raises with (e := e').
  now rewrite (proj1 (result_async_get_pairs self L N Hc Hn)).
Qed.

(** ** The two ways of naming the factory *)

(** X17. A fetch given a factory address instead of a proxy is the
    fetch given a proxy bound to that address with the factory ABI, and
    raises the error of the binding, before any call, when the binding
    fails.  The rebinding happens for every falsy [factory_contract], not
    only None, so a falsy value other than None passes the ValueError guard
    even without an address.  When a proxy is given, the address is
    ignored. *)
Theorem factory_address_is_bound_like_a_proxy
        (factory_contract uint factory_address : PV) :
  (forall fc : ETHContractFunctions W3Contract,
      async_get_pair_by_index eth_contract (VObj fc) uint factory_address
      = async_get_pair_by_index eth_contract (VObj fc) uint VNone) /\
  (truthy factory_contract = false ->
   andb (is_None factory_contract) (is_None factory_address) = false ->
   (forall c, eth_contract factory_address pair_factory_abi = inr c ->
              async_get_pair_by_index eth_contract factory_contract uint factory_address
              = async_get_pair_by_index eth_contract
                                        (VObj (mk_ETHContractFunctions c)) uint VNone) /\
   (forall e, eth_contract factory_address pair_factory_abi = inl e ->
              always w3call
                     (async_get_pair_by_index eth_contract factory_contract uint
                                              factory_address)
                     (fun log o => o = inl e /\ log = []))).
Proof.
  split; [reflexivity|]. intros T G. split.
  - intros c Hc. unfold async_get_pair_by_index at 1. rewrite G, T.
    cbn [negb]. change (_get_abi "pair_factory") with (inr exn pair_factory_abi).
    unfold ETHContractFunctions_init. rewrite Hc. reflexivity.
  - intros e He.
    assert (E : async_get_pair_by_index eth_contract factory_contract uint factory_address
                = Raise e).
    { unfold async_get_pair_by_index. rewrite G, T.
      cbn [negb]. change (_get_abi "pair_factory") with (inr exn pair_factory_abi).
      unfold ETHContractFunctions_init. rewrite He. reflexivity. }
    rewrite E. apply always_Raise.
Qed.

(** ** Calls and ABIs *)

Lemma Forall_sent (P : EV -> Prop) ct fn (a : list PV) :
  P (EvCall ct fn a) -> Forall P (sent w3call ct fn a).
Proof. intros H. unfold sent. destruct (absent _ _); repeat constructor. exact H. Qed.

Lemma Forall_events_bind (P : EV -> Prop) (A B : Type) (c : CO A) (f : A -> CO B) :
  Forall P (events w3call c) ->
  (forall a, Forall P (events w3call (f a))) ->
  Forall P (events w3call (bind c f)).
Proof.
  intros Hc Hf. rewrite events_bind. apply Forall_app. split; auto.
  destruct (result w3call c); auto.
Qed.

Lemma Forall_events_raise_or (P : EV -> Prop) (T A : Type) (o : exn + T) (k : T -> CO A) :
  (forall v, Forall P (events w3call (k v))) ->
  Forall P (events w3call (raise_or o k)).
Proof. destruct o; simpl; auto. Qed.

Lemma Forall_events_Gather (P : EV -> Prop) (A : Type) (cs : list (CO PV))
      (k : list PV -> CO A) :
  Forall (fun c0 => Forall P (events w3call c0)) cs ->
  (forall vs, Forall P (events w3call (k vs))) ->
  Forall P (events w3call (Gather cs k)).
Proof.
  intros Hcs Hk. simpl. apply Forall_app. split.
  - induction Hcs as [|c cs Hc _ IH]; simpl; auto. apply Forall_app. auto.
  - destruct (collect _); auto.
Qed.

Section Declared.

Variable abi_of : W3Contract -> list abi_entry.
Hypothesis bound_abi :
  forall address abi c, eth_contract address abi = inr c -> abi_of c = abi.

Local Notation ok :=
  (fun ev : EV =>
     match ev with
     | EvCall c fn a => declared (abi_of c) fn (List.length a) = true /\ fn <> "getPair"
     | EvPrint _ => True
     end).

Lemma token_info_ok (token_address : PV) :
  Forall ok (events w3call (async_get_token_info eth_contract token_address)).
Proof.
  rewrite token_info_body.
  destruct (eth_contract token_address token_abi) as [e|c] eqn:B; [constructor|].
  rewrite events_call. apply Forall_sent.
  cbn [contract]. rewrite (bound_abi B). split; [reflexivity | discriminate].
Qed.

Lemma pair_info_ok (pair_address : PV) :
  Forall ok (events w3call (async_get_pair_info eth_contract pair_address)).
Proof.
  destruct (eth_contract pair_address pair_abi) as [e|c] eqn:B.
  - rewrite (pair_info_binding_raises B). constructor.
  - rewrite (events_async_get_pair_info B), !Forall_app.
    repeat split; apply Forall_sent; rewrite (bound_abi B);
      (split; [reflexivity | discriminate]).
Qed.

Lemma fetch_ok (fc : ETHContractFunctions W3Contract) (uint factory_address : PV) :
  declared (abi_of (contract fc)) "allPairs" 1 = true ->
  Forall ok (events w3call
               (async_get_pair_by_index eth_contract (VObj fc) uint factory_address)).
Proof.
  intros D. rewrite fetch_head. cbn [events].
  apply Forall_app. split; [apply Forall_sent; split; [exact D | discriminate]|].
  apply Forall_events_bind.
  { destruct (w3call _ _ _) as [e|v]; [destruct (is_Web3Exception e)|]; constructor. }
  intros pa. apply Forall_events_bind; [apply pair_info_ok|].
  intros pinfo.
  apply Forall_events_raise_or; intros a0.
  apply Forall_events_raise_or; intros a1.
  apply Forall_events_Gather.
  - repeat constructor; apply token_info_ok.
  - intros vs. apply Forall_events_raise_or; intros [tk0 tk1].
    repeat (apply Forall_events_raise_or; intros ?). constructor.
Qed.

Lemma pairs_loop_ok (cf : ETHContractFunctions W3Contract) :
  declared (abi_of (contract cf)) "allPairs" 1 = true ->
  forall (idxs pend : list Z) (self : Contract W3Contract)
         (processor : AsyncBatchProcessor W3Contract),
    queued processor (map (fetch_task eth_contract cf) pend) ->
    Forall ok (events w3call (pairs_loop eth_contract self processor cf idxs)).
Proof.
  intros D.
  assert (Bt : forall pend : list Z,
             Forall ok (events w3call
                          (Gather (map (@apply_task W3Contract)
                                       (map (fetch_task eth_contract cf) pend))
                                  (fun vs => Ret (VList vs)) : CO PV))).
  { intros pend. apply Forall_events_Gather; [|constructor].
    rewrite map_map. induction pend as [|j pend IHp]; constructor; auto.
    apply fetch_ok, D. }
  induction idxs as [|i rest IH]; intros pend self processor Q.
  - cbn [pairs_loop]. destruct pend as [|p pend].
    + rewrite process_tasks_empty by apply Q. constructor.
    + rewrite (process_tasks_queued Q) by discriminate.
      apply Forall_events_bind; [apply Bt|].
      intros results. destruct (truthy results); [|constructor].
      apply Forall_events_raise_or; intros df. constructor.
  - cbn [pairs_loop].
    pose proof (queued_append (async_get_pair_by_index_func eth_contract)
                  [VObj cf; VInt i] [] Q) as Q1.
    change (map (fetch_task eth_contract cf) pend
            ++ [(async_get_pair_by_index_func eth_contract, [VObj cf; VInt i], [])])
      with (map (fetch_task eth_contract cf) pend ++ map (fetch_task eth_contract cf) [i])
      in Q1.
    rewrite <- map_app in Q1.
    unfold add_task. destruct (Z.of_nat _ >=? _).
    + rewrite (process_tasks_queued Q1) by (destruct pend; discriminate).
      apply Forall_events_bind; [apply Bt|].
      intros results. destruct (truthy results).
      * apply Forall_events_raise_or; intros df.
        apply Forall_events_raise_or; intros n.
        cbn [events]. constructor; [exact I|].
        apply (IH []). now repeat split.
      * apply (IH []). now repeat split.
    + cbn [bind truthy]. apply (IH (pend ++ [i])), Q1.
Qed.

(** X18. Every remote call the discovery makes names a function that
    the ABI its contract was bound with declares, with the declared number
    of arguments, and none is getPair.  This holds for every call logged by
    every run, complete or cut short, returning or raising: the KeyError of
    an undeclared function name cannot come from the pipeline's own calls. *)
Theorem discovery_calls_only_declared_functions
        (self : Contract W3Contract) (factory_address : PV) (L : Z)
        (sched : list pick) (log : list EV) (rest : CO (Contract W3Contract * PV)) :
  exec w3call sched (async_get_pairs eth_contract self factory_address L)
  = Some (log, rest) ->
  forall c fn a,
    In (EvCall c fn a) log ->
    declared (abi_of c) fn (List.length a) = true /\ fn <> "getPair".
Proof.
  intros X c fn a I.
  assert (F : Forall ok (events w3call
                           (async_get_pairs eth_contract self factory_address L))).
  { unfold async_get_pairs.
    change (_get_abi "pair_factory") with (inr exn pair_factory_abi).
    unfold raise_or at 1 2, ETHContractFunctions_init.
    destruct (eth_contract factory_address pair_factory_abi) as [e|fcn] eqn:B;
      [constructor|].
    apply Forall_events_bind.
    - unfold __getattr__. rewrite events_call. apply Forall_sent.
      cbn [contract]. rewrite (bound_abi B). split; [reflexivity | discriminate].
    - intros pairs_length. apply Forall_events_raise_or; intros idxs.
      apply (@pairs_loop_ok (mk_ETHContractFunctions fcn)) with (pend := []).
      + cbn [contract]. now rewrite (bound_abi B).
      + now repeat split. }
  pose proof (exec_log_Forall _ _ F X) as G.
  rewrite Forall_forall in G. exact (G _ I).
Qed.

End Declared.

End More.

(** * The further properties at the example nodes *)

Lemma small_limit_runs_each_task_alone_witness :
  let self := fst (add_task (AsyncBatchProcessor_init 0) name_of [VStr "0xA"] []) in
  0 <= 1 /\ reachable 0 self /\
  result (table_call three_pairs) (name_of [VStr "0xB"] []) = inr (VStr "TokB") /\
  func self = [] /\
  add_task self name_of [VStr "0xB"] []
  = (AsyncBatchProcessor_init 0,
     Gather [name_of [VStr "0xB"] []] (fun vs => Ret (VList vs))) /\
  always (table_call three_pairs) (snd (add_task self name_of [VStr "0xB"] []))
         (fun _ o => o = inr (VList [VStr "TokB"])).
Proof.
  intros self. split; [lia|]. split; [apply reachable_add_task, reachable_init|].
  split; [reflexivity|].
  apply (@small_limit_runs_each_task_alone W3 (table_call three_pairs) 0 self
           name_of [VStr "0xB"] [] (VStr "TokB")).
  - lia.
  - apply reachable_add_task, reachable_init.
  - reflexivity.
Defined.

Lemma parallel_lists_stay_in_step_witness :
  let self := fst (add_task (AsyncBatchProcessor_init 3) name_of [VStr "0xA"] []) in
  reachable 3 self /\
  List.length (args self) = List.length (func self) /\
  List.length (kwargs self) = List.length (func self) /\
  (forall e, snd (process_tasks self) <> Raise e) /\
  (forall e, snd (add_task self name_of [VStr "0xB"] []) <> Raise e).
Proof.
  intros self. split; [apply reachable_add_task, reachable_init|].
  apply (@parallel_lists_stay_in_step W3 3 self name_of [VStr "0xB"] []).
  apply reachable_add_task, reachable_init.
Defined.

Lemma flush_of_lists_out_of_step_witness :
  let self : AsyncBatchProcessor W3 :=
    mk_AsyncBatchProcessor 5 [name_of; name_of] [[VStr "0xA"]] [[]; []] in
  (List.length (args self) < List.length (func self))%nat /\
  process_tasks self = (self, Raise (IndexError "list index out of range")) /\
  always (table_call three_pairs) (snd (process_tasks self))
         (fun log o => o = inl (IndexError "list index out of range") /\ log = []).
Proof.
  intros self. split; [simpl; lia|].
  apply (@flush_of_lists_out_of_step W3 (table_call three_pairs) self).
  left. simpl. lia.
Defined.

Lemma flush_with_a_failing_task_witness :
  let self : AsyncBatchProcessor W3 :=
    mk_AsyncBatchProcessor 5 [name_of; failing] [[VStr "0xA"]; []] [[]; []] in
  result (table_call three_pairs) (apply_task (failing, [], []))
  = inl (OtherError "RuntimeError" "boom") /\
  fst (process_tasks self) = AsyncBatchProcessor_init 5 /\
  always (table_call three_pairs) (snd (process_tasks self))
         (fun _ o => exists e', o = inl e').
Proof.
  intros self. split; [reflexivity|].
  apply (@flush_with_a_failing_task W3 (table_call three_pairs) self
           [(name_of, [VStr "0xA"], []); (failing, [], [])]
           (failing, [], []) (OtherError "RuntimeError" "boom")).
  - repeat split; reflexivity.
  - right. left. reflexivity.
  - reflexivity.
Defined.


Lemma binding_errors_are_raised_before_any_call_witness :
  let e := Web3Exception "InvalidAddress" in
  strict_contract (VStr "NotFound") token_abi = inl e /\
  always (table_call three_pairs) (async_get_token_info strict_contract (VStr "NotFound"))
         (fun log o => o = inl e /\ log = []) /\
  always (table_call three_pairs) (async_get_pair_info strict_contract (VStr "NotFound"))
         (fun log o => o = inl e /\ log = []) /\
  always (table_call three_pairs) (get_pair_length strict_contract (VStr "NotFound"))
         (fun log o => o = inl e /\ log = []) /\
  always (table_call three_pairs)
         (async_get_pairs strict_contract Contract_init (VStr "NotFound") 2)
         (fun log o => o = inl e /\ log = []).
Proof.
  intros e. split; [reflexivity|].
  destruct (@binding_errors_are_raised_before_any_call W3 strict_contract
              (table_call three_pairs) (VStr "NotFound") e) as (T & P & F).
  split; [apply T; reflexivity|]. split; [apply P; reflexivity|].
  destruct (F eq_refl) as [G A]. split; [exact G | apply A].
Defined.

Lemma fetch_raises_when_the_pair_binding_raises_witness :
  table_call allPairs_1_fails (contract factory) "allPairs" [VInt 1] = reverted /\
  strict_contract (VStr "NotFound") pair_abi = inl (Web3Exception "InvalidAddress") /\
  always (table_call allPairs_1_fails)
         (async_get_pair_by_index strict_contract (VObj factory) (VInt 1) VNone)
         (fun log o => o = inl (Web3Exception "InvalidAddress") /\
                       log = [EvCall (contract factory) "allPairs" [VInt 1]]).
Proof.
  split; [reflexivity|]. split; [reflexivity|].
  apply (@fetch_raises_when_the_pair_binding_raises W3 strict_contract
           (table_call allPairs_1_fails) factory (VInt 1) VNone
           (Web3Exception "InvalidAddress")); reflexivity.
Defined.

Lemma get_pair_length_returns_length_or_sentinel_witness :
  let c : W3 := ("0xF", map abi_name pair_factory_abi) in
  always (table_call three_pairs) (get_pair_length lax_contract (VStr "0xF"))
         (fun log o => o = inr (VInt 3) /\ log = [EvCall c "allPairsLength" []]) /\
  always (table_call allPairsLength_fails) (get_pair_length lax_contract (VStr "0xF"))
         (fun log o => o = inr (VStr "NotFound") /\ log = [EvCall c "allPairsLength" []]).
Proof.
  intros c. split.
  - apply (@get_pair_length_returns_length_or_sentinel W3 lax_contract
             (table_call three_pairs) (VStr "0xF") c); reflexivity.
  - apply (@get_pair_length_returns_length_or_sentinel W3 lax_contract
             (table_call allPairsLength_fails) (VStr "0xF") c); reflexivity.
Defined.


Lemma fetch_stages_are_ordered_witness :
  let f : W3 := ("0xF", map abi_name pair_factory_abi) in
  let log : list (event W3) :=
    [ EvCall f "allPairs" [VInt 0];
      EvCall ("0xP0", map abi_name pair_abi) "token1" [];
      EvCall ("0xP0", map abi_name pair_abi) "token0" [];
      EvCall ("0xP0", map abi_name pair_abi) "name" [];
      EvCall ("0xB", map abi_name token_abi) "name" [];
      EvCall ("0xA", map abi_name token_abi) "name" [] ] in
  run (table_call three_pairs)
      [Fire; Inside 2 Fire; Inside 1 Fire; Inside 0 Fire; Fire;
       Inside 1 Fire; Inside 0 Fire; Fire]
      (async_get_pair_by_index lax_contract (VObj factory) (VInt 0) VNone)
  = Some (log, inr (PairRecord (VStr "0xP0") (VStr "P0") (VStr "0xA") (VStr "TokA")
                               (VStr "0xB") (VStr "TokB"))) /\
  exists pa pc a0 a1 t0 t1 l2 l3,
    proxied (table_call three_pairs (contract factory) "allPairs" [VInt 0]) = inr pa /\
    lax_contract pa pair_abi = inr pc /\
    proxied (table_call three_pairs pc "token0" []) = inr a0 /\
    proxied (table_call three_pairs pc "token1" []) = inr a1 /\
    lax_contract a0 token_abi = inr t0 /\
    lax_contract a1 token_abi = inr t1 /\
    log = EvCall (contract factory) "allPairs" [VInt 0] :: l2 ++ l3 /\
    Permutation [EvCall pc "name" []; EvCall pc "token0" []; EvCall pc "token1" []] l2 /\
    Permutation [EvCall t0 "name" []; EvCall t1 "name" []] l3.
Proof.
  intros f log. split; [reflexivity|].
  apply (@fetch_stages_are_ordered W3 lax_contract (table_call three_pairs)
           factory (VInt 0) VNone
           (PairRecord (VStr "0xP0") (VStr "P0") (VStr "0xA") (VStr "TokA")
                       (VStr "0xB") (VStr "TokB"))
           [Fire; Inside 2 Fire; Inside 1 Fire; Inside 0 Fire; Fire;
            Inside 1 Fire; Inside 0 Fire; Fire] log).
  reflexivity.
Defined.

Lemma frame_rows_are_the_records_witness :
  let r0 : val := PairRecord (VStr "0xP0") (VStr "P0") (VStr "0xA") (VStr "TokA")
                             (VStr "0xB") (VStr "TokB") in
  let r1 : val := PairRecord (VStr "0xP1") (VStr "NotFound") (VStr "0xB") (VStr "TokB")
                             (VStr "0xC") (VStr "TokC") in
  Forall (@is_record W3) [r0; r1] /\
  exists df,
    to_dataframe (VList [r0; r1]) = inr df /\
    rows df = 2%nat /\
    forall i, row df i = nth_error [r0; r1] i.
Proof.
  intros r0 r1.
  assert (F : Forall (@is_record W3) [r0; r1]).
  { repeat constructor; unfold is_record, r0, r1; eauto 10. }
  split; [exact F|].
  exact (@frame_rows_are_the_records W3 [r0; r1] F).
Defined.

Lemma frame_of_concatenated_results_witness :
  let r0 : val := PairRecord (VStr "0xP0") (VStr "P0") (VStr "0xA") (VStr "TokA")
                             (VStr "0xB") (VStr "TokB") in
  let r1 : val := PairRecord (VStr "0xP1") (VStr "P1") (VStr "0xB") (VStr "TokB")
                             (VStr "0xC") (VStr "TokC") in
  to_dataframe (VList [r0]) = inr (mk_DataFrame [VStr "0xP0"] [VStr "P0"] [VStr "0xA"]
                                                [VStr "TokA"] [VStr "0xB"] [VStr "TokB"]) /\
  to_dataframe (VList [r1]) = inr (mk_DataFrame [VStr "0xP1"] [VStr "P1"] [VStr "0xB"]
                                                [VStr "TokB"] [VStr "0xC"] [VStr "TokC"]) /\
  to_dataframe (VList ([r0] ++ [r1]))
  = inr (mk_DataFrame [VStr "0xP0"; VStr "0xP1"] [VStr "P0"; VStr "P1"]
                      [VStr "0xA"; VStr "0xB"] [VStr "TokA"; VStr "TokB"]
                      [VStr "0xB"; VStr "0xC"] [VStr "TokB"; VStr "TokC"]).
Proof.
  intros r0 r1. split; [reflexivity|]. split; [reflexivity|].
  apply (proj2 (@frame_of_concatenated_results W3 [r0] [r1] _)).
  eexists _, _. split; [reflexivity|]. split; reflexivity.
Defined.

Lemma frame_needs_the_six_keys_witness :
  let whole : val :=
    VDict [ ("block", VInt 7); ("pair_address", VStr "0xP0"); ("pair_name", VStr "P0");
            ("token0_address", VStr "0xA"); ("token0_name", VStr "TokA");
            ("token1_address", VStr "0xB"); ("token1_name", VStr "TokB") ] in
  let partial : val :=
    VDict [ ("pair_address", VStr "0xP1"); ("pair_name", VStr "P1");
            ("token0_address", VStr "0xB"); ("token1_address", VStr "0xC");
            ("token1_name", VStr "TokC") ] in
  (exists df, to_dataframe (VList [whole]) = inr df) /\
  to_dataframe (VList [whole; partial]) = inl (KeyError "token0_name") /\
  exists key kv,
    In key column_names /\ In (VDict kv) [whole; partial] /\ assoc key kv = None /\
    KeyError "token0_name" = KeyError key.
Proof.
  intros whole partial.
  split.
  - apply (proj1 (@frame_needs_the_six_keys W3 [whole])).
    repeat constructor. intros key I. simpl in I.
    decompose [or] I; subst; try contradiction; eexists; reflexivity.
  - split; [reflexivity|].
    apply (proj2 (@frame_needs_the_six_keys W3 [whole; partial])).
    + repeat constructor; eexists; reflexivity.
    + reflexivity.
Defined.

Lemma table_is_appended_whatever_the_limit_witness :
  let c : W3 := ("0xF", map abi_name pair_factory_abi) in
  let table : DataFrame W3 :=
    mk_DataFrame [VStr "0xP0"; VStr "0xP1"; VStr "0xP2"]
                 [VStr "P0"; VStr "P1"; VStr "P2"]
                 [VStr "0xA"; VStr "0xB"; VStr "0xA"]
                 [VStr "TokA"; VStr "TokB"; VStr "TokA"]
                 [VStr "0xB"; VStr "0xC"; VStr "0xC"]
                 [VStr "TokB"; VStr "TokC"; VStr "TokC"] in
  lax_contract (VStr "0xF") pair_factory_abi = inr c /\
  table_call three_pairs c "allPairsLength" [] = inr (VInt (Z.of_nat 3)) /\
  forall (L : Z) (self : Contract W3),
    always (table_call three_pairs) (async_get_pairs lax_contract self (VStr "0xF") L)
           (fun _ o => o = inr (mk_Contract (_append (result_df self) table), VNone)).
Proof.
  intros c table. split; [reflexivity|]. split; [reflexivity|].
  destruct (@table_is_appended_whatever_the_limit W3 lax_contract (table_call three_pairs)
              (VStr "0xF") 3 c
              (fun i => match result (table_call three_pairs)
                                     (async_get_pair_by_index lax_contract
                                        (VObj (mk_ETHContractFunctions c))
                                        (VInt (Z.of_nat i)) VNone) with
                        | inr r => r
                        | inl _ => VNone
                        end))
    as (df & T & A).
  - reflexivity.
  - reflexivity.
  - intros i Hi.
    destruct i as [|[|[|i]]]; [reflexivity | reflexivity | reflexivity | lia].
  - vm_compute in T. injection T as <-. exact A.
Defined.

Lemma discovery_makes_six_calls_per_pair_witness :
  let c : W3 := ("0xF", map abi_name pair_factory_abi) in
  (1 <= 2)%nat /\
  lax_contract (VStr "0xF") pair_factory_abi = inr c /\
  table_call three_pairs c "allPairsLength" [] = inr (VInt (Z.of_nat 3)) /\
  always (table_call three_pairs)
         (async_get_pairs lax_contract Contract_init (VStr "0xF") (Z.of_nat 2))
         (fun log o => (exists v, o = inr v) /\ List.length (calls log) = 19%nat).
Proof.
  intros c. split; [lia|]. split; [reflexivity|]. split; [reflexivity|].
  apply (@discovery_makes_six_calls_per_pair W3 lax_contract (table_call three_pairs)
           Contract_init (VStr "0xF") 2 3 c
           (fun i => match result (table_call three_pairs)
                                  (async_get_pair_by_index lax_contract
                                     (VObj (mk_ETHContractFunctions c))
                                     (VInt (Z.of_nat i)) VNone) with
                     | inr r => r
                     | inl _ => VNone
                     end)).
  - lia.
  - reflexivity.
  - reflexivity.
  - intros i Hi.
    destruct i as [|[|[|i]]]; [reflexivity | reflexivity | reflexivity | lia].
Defined.

Lemma factory_address_is_bound_like_a_proxy_witness :
  let c : W3 := ("0xF", map abi_name pair_factory_abi) in
  truthy (VStr EmptyString : val) = false /\
  andb (is_None (VStr EmptyString : val)) (is_None (VStr "0xF" : val)) = false /\
  lax_contract (VStr "0xF") pair_factory_abi = inr c /\
  async_get_pair_by_index lax_contract (VStr EmptyString) (VInt 0) (VStr "0xF")
  = async_get_pair_by_index lax_contract (VObj (mk_ETHContractFunctions c)) (VInt 0) VNone /\
  strict_contract VNone pair_factory_abi = inl (TypeError "address must be a string") /\
  always (table_call three_pairs)
         (async_get_pair_by_index strict_contract (VStr EmptyString) (VInt 0) VNone)
         (fun log o => o = inl (TypeError "address must be a string") /\ log = []).
Proof.
  intros c. split; [reflexivity|]. split; [reflexivity|]. split; [reflexivity|].
  split.
  - apply (proj1 (proj2 (@factory_address_is_bound_like_a_proxy W3 lax_contract
                           (table_call three_pairs) (VStr EmptyString) (VInt 0) (VStr "0xF"))
                    eq_refl eq_refl)).
    reflexivity.
  - split; [reflexivity|].
    apply (proj2 (proj2 (@factory_address_is_bound_like_a_proxy W3 strict_contract
                           (table_call three_pairs) (VStr EmptyString) (VInt 0) VNone)
                    eq_refl eq_refl)).
    reflexivity.
Defined.

Lemma discovery_calls_only_declared_functions_witness :
  (forall address abi c, abi_contract address abi = inr c -> snd c = abi) /\
  forall c fn a,
    In (EvCall c fn a)
       (events abi_call (async_get_pairs abi_contract Contract_init (VStr "0xF") 2)) ->
    declared (snd c) fn (List.length a) = true /\ fn <> "getPair".
Proof.
  assert (B : forall address abi c, abi_contract address abi = inr c -> snd c = abi).
  { intros address abi c H. destruct address; try discriminate.
    simpl in H. now injection H as <-. }
  split; [exact B|].
  apply (@discovery_calls_only_declared_functions W3A abi_contract abi_call
           (@snd string (list abi_entry)) B Contract_init (VStr "0xF") 2
           (schedule abi_call (async_get_pairs abi_contract Contract_init (VStr "0xF") 2))
           (events abi_call (async_get_pairs abi_contract Contract_init (VStr "0xF") 2))
           (finish (result abi_call
                           (async_get_pairs abi_contract Contract_init (VStr "0xF") 2)))).
  vm_compute. reflexivity.
Defined.

Lemma discovery_raises_when_a_fetch_raises_witness :
  let c : W3 := ("0xF", map abi_name pair_factory_abi) in
  strict_contract (VStr "0xF") pair_factory_abi = inr c /\
  table_call token0_of_pair2_fails c "allPairsLength" [] = inr (VInt (Z.of_nat 3)) /\
  (2 < 3)%nat /\
  result (table_call token0_of_pair2_fails)
         (async_get_pair_by_index strict_contract (VObj (mk_ETHContractFunctions c))
                                  (VInt (Z.of_nat 2)) VNone)
  = inl (Web3Exception "InvalidAddress") /\
  forall (L : Z) (self : Contract W3),
    always (table_call token0_of_pair2_fails)
           (async_get_pairs strict_contract self (VStr "0xF") L)
           (fun _ o => exists e', o = inl e').
Proof.
  intros c. split; [reflexivity|]. split; [reflexivity|]. split; [lia|].
  split; [reflexivity|].
  intros L self.
  apply (@discovery_raises_when_a_fetch_raises W3 strict_contract
           (table_call token0_of_pair2_fails) self (VStr "0xF") L 3 c 2
           (Web3Exception "InvalidAddress"));
    [reflexivity | reflexivity | lia | reflexivity].
Defined.
